(** * django_viewedmodels: dependency-ordered database views

    A shallow embedding of [viewedmodels/helpers.py] and
    [viewedmodels/models.py], and the properties of their scheduling,
    rendering and metadata code.

    What the two files import is modelled beside them: [toposort_flatten]
    after the source of the [toposort] package, the Django registry and the
    database as records, [json.loads] and [json.dumps] as the two methods of
    a class (with one instance, [JsonText.codec], to run the code on
    concrete comments).

    Python values are modelled as follows: [str] is [string] (the text is
    taken to be ASCII), a [dict] is a [gmap] when only its lookups matter
    and an association list when its order is printed, a [set] is a [gset],
    a list is a [list]; an exception is a constructor of [exn] carried by
    [result], and code that uses the connection is a function from the
    database to a [result] and the database it leaves. *)

From Stdlib Require Import String Ascii.
From stdpp Require Import gmap strings list fin_maps sorting relations pretty.

Local Open Scope string_scope.
Local Open Scope list_scope.
Local Open Scope stdpp_scope.
Set Warnings "-register-all,-clear-no-such-hyp".

(** ** Exceptions and results *)

(** The dependency graph of [sort_dependencies]: a [defaultdict(set)] from
    a default table name to the default table names it depends on. *)
Abbreviation graph := (gmap string (gset string)).

Inductive exn : Type :=
| LookupError (msg : string)
| CircularDependencyError (data : graph)
| AssertionError
| AttributeError
| TypeError
| IndexError
| JSONDecodeError
| ProgrammingError.

Inductive result (A : Type) : Type :=
| Ok (a : A)
| Raise (e : exn).
Arguments Ok {A} a.
Arguments Raise {A} e.

#[global] Instance result_ret : MRet result := λ A a, Ok a.
#[global] Instance result_bind : MBind result := λ A B f r,
  match r with
  | Ok a => f a
  | Raise e => Raise e
  end.
#[global] Instance result_fmap : FMap result := λ A B f r,
  match r with
  | Ok a => Ok (f a)
  | Raise e => Raise e
  end.

(** ** Python string operations *)

Module Str.

(** [str.lower] on ASCII text. *)
Definition lower_ascii (c : ascii) : ascii :=
  let n := N_of_ascii c in
  if ((65 <=? n) && (n <=? 90))%N then ascii_of_N (n + 32) else c.

Fixpoint lower (s : string) : string :=
  match s with
  | EmptyString => EmptyString
  | String c rest => String (lower_ascii c) (lower rest)
  end.

(** [s.split(sep)] for a one-character separator: never empty, and two
    adjacent separators enclose an empty piece. *)
Fixpoint split (sep : ascii) (s : string) : list string :=
  match s with
  | EmptyString => [EmptyString]
  | String c rest =>
      if Ascii.eqb c sep then EmptyString :: split sep rest
      else match split sep rest with
           | piece :: pieces => String c piece :: pieces
           | [] => [String c EmptyString]
           end
  end.

(** [sep.join(pieces)]. *)
Definition join (sep : string) (pieces : list string) : string :=
  String.concat sep pieces.

(** [l[-1]] and [l[:-1]]. *)
Definition last_item (l : list string) : result string :=
  match last l with
  | Some x => Ok x
  | None => Raise IndexError
  end.

Definition but_last (l : list string) : list string := removelast l.

(** The order of [sorted] on [str]: lexicographic on code points. *)
Definition le (s t : string) : Prop := String.leb s t.

#[global] Instance le_dec : RelDecision le.
Proof. intros s t. unfold le. apply _. Defined.

(** [sorted(d)] for a set of strings. *)
Definition sorted (d : gset string) : list string :=
  merge_sort le (elements d).

(** [name[:n]]. *)
Definition prefix_of (n : nat) (s : string) : string := String.substring 0 n s.

End Str.

(** ** helpers.py *)

(** Which class of [models.py] a registered model class derives from;
    [BaseModel] is an ordinary table model. *)
Inductive base_class : Type :=
| BaseModel
| BaseViewedModel
| BaseMaterializedViewedModel.

#[global] Instance base_class_eq_dec : EqDecision base_class.
Proof. solve_decision. Defined.

(** The database as this code sees it: the relations with their comment
    ([pg_description]), the statements that [cursor.execute] has run, the
    engine clock, and the statements that the engine refuses.  The two
    queries of the code ([SELECT description ...], [SELECT now()::text])
    are answered from this record and are not listed in [executed]. *)
Record DB : Type := mkDB {
  relations : gmap string (option string);
  executed : list (string * option (list string));
  now : string;
  rejects : string → bool;
}.

(** A model class: [_meta.app_label], [_meta.model_name], [_meta.db_table],
    [_meta.abstract], the class of [models.py] it derives from, the class
    attributes [dependencies], [params] (absent is [None]) and
    [concurrently], the text that the [sql] classmethod returns when the
    class (or a user class above it) defines one, and the [update_mv]
    policy hook, which may look at the database. *)
Record model : Type := mkModel {
  app_label : string;
  model_name : string;
  db_table : string;
  abstract : bool;
  base : base_class;
  dependencies : list (string * string);
  own_sql : option string;
  params : option (list string);
  concurrently : bool;
  update_mv : DB → bool;
}.

(** The class tree below [ViewedModel], as [__subclasses__] gives it. *)
Inductive class_tree : Type :=
| Class (cls : model) (subclasses : list class_tree).

Definition tree_class (t : class_tree) : model :=
  match t with Class cls _ => cls end.

(** The Django side: the app registry ([apps.app_configs], each with its
    [models] dict keyed by lower-cased model name), the class tree rooted
    at [ViewedModel], the backend's [max_name_length()] and the digest
    that [truncate_name] appends. *)
Record django : Type := mkDjango {
  app_configs : gmap string (gmap string model);
  ViewedModel : class_tree;
  max_name_length : nat;
  names_digest : string → string;
}.

Definition table_name (m : model) : string := db_table m.

Definition get_model (dj : django) (app_name model_name : string) : result model :=
  match app_configs dj !! Str.lower app_name with
  | None => Raise (LookupError ("App " +:+ app_name +:+ " not found"))
  | Some app =>
      match app !! Str.lower model_name with
      | None =>
          Raise (LookupError ("App " +:+ app_name +:+ " Model " +:+ model_name +:+ " not found"))
      | Some m => Ok m
      end
  end.

Definition table_name_get_model (dj : django) (app_name model_name : string) : result string :=
  table_name <$> (get_model dj app_name model_name).

(** [django.db.backends.utils.truncate_name] on an identifier without a
    quoted namespace, with the default [hash_len] of 4. *)
Definition truncate_name (dj : django) (identifier : string) (length : nat) : string :=
  if decide (String.length identifier ≤ length)%nat then identifier
  else Str.prefix_of (length - 4) identifier +:+ names_digest dj identifier.

Definition default_table_name (dj : django) (app_name model_name : string) : string :=
  let db_table := app_name +:+ "_" +:+ model_name in
  let db_table := truncate_name dj db_table (max_name_length dj) in
  Str.lower db_table.

Definition model_default_table_name (dj : django) (m : model) : string :=
  default_table_name dj (app_label m) (model_name m).

(** [get_subclasses(cls)]: for each direct subclass, first everything
    below it, then the subclass itself. *)
Fixpoint get_subclasses (cls : class_tree) : list model :=
  match cls with
  | Class _ subclasses =>
      flat_map (λ subclass, get_subclasses subclass ++ [tree_class subclass]) subclasses
  end.

(** ** The [toposort] package *)

(** [models.py] imports [toposort_flatten] from the [toposort] package
    ([install_requires] of [setup.py]).  The definitions follow the two
    functions of that package, [toposort] and [toposort_flatten]; the
    quoted comments are the package's own. *)
Module Toposort.

(** The items that depend on nothing. *)
Definition ready (data : graph) : gset string :=
  dom (filter (λ kv, kv.2 = ∅) data).

(** The comprehension that ends each round: drop the items just
    yielded, as keys and as dependencies. *)
Definition prune (ordered : gset string) (data : graph) : graph :=
  (λ dep, dep ∖ ordered) <$> filter (λ kv, kv.1 ∉ ordered) data.

(** After the loop: [if len(data) != 0: raise CircularDependencyError(data)]. *)
Definition finish (data : graph) : result (list (gset string)) :=
  if decide (data = ∅) then Ok [] else Raise (CircularDependencyError data).

(** The [while True] loop: [ordered] is the set of items without
    dependencies; the loop breaks when it is empty, else it yields it and
    goes on with the pruned data.  Every round that does not break removes
    a key, so [size data] rounds are enough ([loop_unfold] below). *)
Fixpoint loop (rounds : nat) (data : graph) : result (list (gset string)) :=
  match rounds with
  | 0 => finish data
  | S rounds =>
      let ordered := ready data in
      if decide (ordered = ∅) then finish data
      else cons ordered <$> loop rounds (prune ordered data)
  end.

(** "Ignore self dependencies." *)
Definition discard_self (data : graph) : graph :=
  map_imap (λ k v, Some (v ∖ {[k]})) data.

(** "Find all items that don't depend on anything." *)
Definition extra_items_in_deps (data : graph) : gset string :=
  ⋃ (snd <$> map_to_list data) ∖ dom data.

(** "Add empty dependences where needed." *)
Definition prepare (data : graph) : graph :=
  let data := discard_self data in
  data ∪ gset_to_gmap ∅ (extra_items_in_deps data).

(** The generator, as the list of the sets it yields; "Special case empty
    input." *)
Definition toposort (data : graph) : result (list (gset string)) :=
  if decide (data = ∅) then Ok []
  else let data := prepare data in loop (size data) data.

(** [toposort_flatten(data, sort=True)]: each yielded set is sorted and
    appended to the result. *)
Definition toposort_flatten (data : graph) : result (list string) :=
  (λ levels, concat (Str.sorted <$> levels)) <$> toposort data.

End Toposort.

(** ** models.py: [ViewDefinition.sort_dependencies] (lines 209 to 245) *)

(** The test [apps != 'all' and c._meta.app_label not in apps], where
    [apps] has been split on commas unless it is ['all']. *)
Definition skipped_by_scope (apps : string) (c : model) : bool :=
  bool_decide (apps ≠ "all") && bool_decide (app_label c ∉ Str.split "," apps).

(** [dependencies[class_string].add(...)] on the [defaultdict(set)]. *)
Definition add_dependency (class_string name : string) (deps : graph) : graph :=
  <[class_string := default ∅ (deps !! class_string) ∪ {[name]}]> deps.

(** The inner loop of [sort_dependencies] over one class's
    [dependencies]; a failed lookup is raised again as a [LookupError]. *)
Fixpoint add_dependencies (dj : django) (class_string : string)
    (declared : list (string * string)) (deps : graph) : result graph :=
  match declared with
  | [] => Ok deps
  | dependency :: declared =>
      match get_model dj dependency.1 dependency.2 with
      | Ok m =>
          add_dependencies dj class_string declared
            (add_dependency class_string (model_default_table_name dj m) deps)
      | Raise (LookupError _) => Raise (LookupError "Dependency of %s failed")
      | Raise e => Raise e
      end
  end.

(** The first loop of [sort_dependencies], over [get_subclasses(ViewedModel)]. *)
Fixpoint collect_dependencies (dj : django) (apps : string)
    (classes : list model) (deps : graph) : result graph :=
  match classes with
  | [] => Ok deps
  | c :: classes =>
      if skipped_by_scope apps c then collect_dependencies dj apps classes deps
      else if abstract c then collect_dependencies dj apps classes deps
      else
        deps ← add_dependencies dj (model_default_table_name dj c) (dependencies c) deps;
        collect_dependencies dj apps classes deps
  end.

(** The graph handed to [toposort_flatten]. *)
Definition dependency_graph (dj : django) (apps : string) : result graph :=
  collect_dependencies dj apps (get_subclasses (ViewedModel dj)) ∅.

(** [hasattr(model_object, 'sql')]: [ViewedModel] deletes its demonstration
    [sql] (line 54), [MaterializedViewedModel] defines one whose body is
    [pass] (lines 99 to 101). *)
Definition has_sql (m : model) : bool :=
  bool_decide (is_Some (own_sql m)) || bool_decide (base m = BaseMaterializedViewedModel).

(** One round of the second loop: the name is split on its underscores,
    the last piece is the model and the rest the app; [None] stands for
    [continue] and for a model without [sql]. *)
Definition model_of_name (dj : django) (name : string) : result (option model) :=
  let splitname := Str.split "_" name in
  model ← Str.last_item splitname;
  let app := Str.join "_" (Str.but_last splitname) in
  if bool_decide (app = "None") || bool_decide (model = "viewedmodel") then Ok None
  else
    model_object ← get_model dj app model;
    Ok (if has_sql model_object then Some model_object else None).

(** The second loop of [sort_dependencies], over the flattened names. *)
Fixpoint models_of_names (dj : django) (flattened : list string) : result (list model) :=
  match flattened with
  | [] => Ok []
  | name :: flattened =>
      found ← model_of_name dj name;
      model_objects ← models_of_names dj flattened;
      Ok (match found with
          | Some model_object => model_object :: model_objects
          | None => model_objects
          end)
  end.

Definition sort_dependencies (dj : django) (apps : string) : result (list model) :=
  deps ← dependency_graph dj apps;
  flattened ← Toposort.toposort_flatten deps;
  models_of_names dj flattened.

(** ** The [json] module *)

Module Json.

(** What [json.loads] returns: an object is a [dict], which keeps its
    keys in the order of their first insertion; a [float] is given by its
    [repr]. *)
Inductive value : Type :=
| Null
| Bool (b : bool)
| Int (n : Z)
| Float (repr : string)
| Str (s : string)
| Array (items : list value)
| Object (members : list (string * value)).

(** [json.loads] and [json.dumps] are the interpreter's; the code below
    is parametric in them.  [loads] raises [JSONDecodeError] on a text
    that is not JSON. *)
Class Codec : Type := {
  loads : string → result value;
  dumps : value → string;
}.

(** [d[key] = v] on a [dict]: in place when the key is there, appended
    otherwise. *)
Fixpoint dict_set (key : string) (v : value) (members : list (string * value))
    : list (string * value) :=
  match members with
  | [] => [(key, v)]
  | (k, old) :: members =>
      if decide (k = key) then (k, v) :: members
      else (k, old) :: dict_set key v members
  end.

(** [d.get(key)]. *)
Fixpoint dict_get (key : string) (members : list (string * value)) : option value :=
  match members with
  | [] => None
  | (k, v) :: members => if decide (k = key) then Some v else dict_get key members
  end.

(** [comment[key] = v] on whatever [json.loads] gave: only a [dict]
    takes a string key. *)
Definition setitem (comment : value) (key : string) (v : value) : result value :=
  match comment with
  | Object members => Ok (Object (dict_set key v members))
  | _ => Raise TypeError
  end.

End Json.

(** ** The database connection *)

(** Code that runs against the connection: it may raise, and it leaves a
    database behind either way. *)
Definition M (A : Type) : Type := DB → result A * DB.

#[global] Instance M_ret : MRet M := λ A a db, (Ok a, db).
#[global] Instance M_bind : MBind M := λ A B f c db,
  match c db with
  | (Ok a, db) => f a db
  | (Raise e, db) => (Raise e, db)
  end.

Definition raise {A} (e : exn) : M A := λ db, (Raise e, db).

(** A comprehension [[f(x) for x in l]] whose body runs against the
    connection. *)
Fixpoint for_each {A B} (f : A → M B) (l : list A) : M (list B) :=
  match l with
  | [] => mret []
  | x :: l => y ← f x; ys ← for_each f l; mret (y :: ys)
  end.

(** [@transaction.atomic]: an exception rolls the database back. *)
Definition atomic {A} (c : M A) : M A := λ db,
  match c db with
  | (Ok a, db') => (Ok a, db')
  | (Raise e, _) => (Raise e, db)
  end.

Module Engine.

(** [s] without its prefix [p], when it starts with [p]. *)
Fixpoint strip_prefix (p s : string) : option string :=
  match p, s with
  | EmptyString, _ => Some s
  | String c p, String d s => if Ascii.eqb c d then strip_prefix p s else None
  | String _ _, EmptyString => None
  end.

(** The text up to the first space, and the text after that space. *)
Fixpoint word (s : string) : string * string :=
  match s with
  | EmptyString => (EmptyString, EmptyString)
  | String c rest =>
      if Ascii.eqb c " " then (EmptyString, rest)
      else let '(w, tail) := word rest in (String c w, tail)
  end.

(** The engine's reading of a string constant after its opening quote:
    two quotes in a row stand for one, a single quote ends the constant.
    Gives the constant and the text that follows it, or [None] when the
    constant is never closed. *)
Fixpoint literal (s : string) : option (string * string) :=
  match s with
  | EmptyString => None
  | String c rest =>
      if Ascii.eqb c "'" then
        match rest with
        | String c' rest' =>
            if Ascii.eqb c' "'" then '(v, tail) ← literal rest'; Some (String "'" v, tail)
            else Some (EmptyString, rest)
        | EmptyString => Some (EmptyString, rest)
        end
      else '(v, tail) ← literal rest; Some (String c v, tail)
  end.

(** [COMMENT ON MATERIALIZED VIEW name IS 'text'], after the first four
    words: the relation must exist, the constant must be closed and
    nothing may follow it; an empty comment removes the comment.  The
    relation is looked up under the name as written. *)
Definition comment_on (rest : string) (relations : gmap string (option string))
    : option (gmap string (option string)) :=
  let '(name, rest) := word rest in
  rest ← strip_prefix "IS '" rest;
  '(text, tail) ← literal rest;
  _ ← relations !! name;
  if decide (tail = "") then
    Some (<[name := if decide (text = "") then None else Some text]> relations)
  else None.

(** [cursor.execute(sql, params)].  A statement that the engine refuses
    raises [ProgrammingError]; a comment statement changes the comment;
    any other statement is recorded as run. *)
Definition execute (sql : string) (params : option (list string)) : M unit := λ db,
  if rejects db sql then (Raise ProgrammingError, db)
  else
    let ran := mkDB (relations db) (executed db ++ [(sql, params)]) (now db) (rejects db) in
    match strip_prefix "COMMENT ON MATERIALIZED VIEW " sql with
    | None => (Ok (), ran)
    | Some rest =>
        match comment_on rest (relations db) with
        | Some relations' =>
            (Ok (), mkDB relations' (executed ran) (now db) (rejects db))
        | None => (Raise ProgrammingError, db)
        end
    end.

End Engine.

(** ** models.py: [ViewedModel] and [MaterializedViewedModel] (lines 14 to 204) *)

(** A value in a returned statement: the SQL text, or the parameters
    ([None] or the class's [params]). *)
Inductive pyval : Type :=
| PyStr (s : string)
| PyParams (p : option (list string)).

(** [[sql, params]], a Python list. *)
Definition statement : Type := list pyval.

(** The keyword arguments that the methods read with [kwargs.get]; [None]
    is an argument that was not passed. *)
Record kwargs : Type := mkKwargs {
  drop_cascade : option bool;
  dryrun : option bool;
}.

Definition dquote : string := String (ascii_of_nat 34) EmptyString.

(** [getattr(cls, 'materialized', False)]: the attribute is set by
    [MaterializedViewedModel]. *)
Definition materialized (cls : model) : bool :=
  bool_decide (base cls = BaseMaterializedViewedModel).

(** [SELECT now()::text]. *)
Definition time_from_db : M string := λ db, (Ok (now db), db).

(** A method of [ViewedModel] looked up on a model class. *)
Definition ViewedModel_method {A} (method : model → M A) (cls : model) : M A :=
  if decide (base cls = BaseModel) then raise AttributeError else method cls.

Definition view_type (cls : model) : string :=
  if materialized cls then "MATERIALIZED VIEW" else "VIEW".

(** [ViewedModel.sql_drop] (lines 56 to 74). *)
Definition sql_drop (kw : kwargs) (cls : model) : M statement :=
  let name := table_name cls in
  let type := view_type cls in
  let cascade := if default true (drop_cascade kw) then "CASCADE" else "" in
  let sql := "DROP " +:+ type +:+ " IF EXISTS " +:+ dquote +:+ name +:+ dquote
             +:+ " " +:+ cascade +:+ ";" in
  _ ← (if negb (default false (dryrun kw)) then Engine.execute sql None else mret ());
  mret [PyStr sql; PyParams None].

(** [cls.sql()]: the class's own body, or the [pass] of
    [MaterializedViewedModel], which returns [None]. *)
Definition sql (cls : model) : result (option string) :=
  match own_sql cls with
  | Some body => Ok (Some body)
  | None => if materialized cls then Ok None else Raise AttributeError
  end.

(** [str.format] of a string or of [None]. *)
Definition format_value (v : option string) : string := default "None" v.

(** [ViewedModel.sql_create] (lines 76 to 94): the assertion, the
    statement, and under the cursor the execution unless [dryrun]. *)
Definition sql_create (kw : kwargs) (cls : model) : M statement :=
  if negb (has_sql cls) then raise AssertionError
  else
    let name := table_name cls in
    let type := view_type cls in
    match sql cls with
    | Raise e => raise e
    | Ok body =>
        let sql := "CREATE " +:+ type +:+ " " +:+ dquote +:+ name +:+ dquote
                   +:+ " AS (" +:+ format_value body +:+ ")" in
        _ ← (if negb (default false (dryrun kw)) then Engine.execute sql (params cls)
             else mret ());
        mret [PyStr sql; PyParams (params cls)]
    end.

Section metadata.
Context `{Json.Codec}.

(** [get_comment] (lines 146 to 157): the description of the relation, or
    [None] when it has none; the cast to [regclass] fails on a relation
    that does not exist. *)
Definition get_comment (cls : model) : M (option string) := λ db,
  match relations db !! table_name cls with
  | Some comment => (Ok comment, db)
  | None => (Raise ProgrammingError, db)
  end.

(** [_set_comment] (lines 159 to 163): the comment goes between the quotes
    by [str.format]. *)
Definition _set_comment (cls : model) (comment : string) : M unit :=
  Engine.execute
    ("COMMENT ON MATERIALIZED VIEW " +:+ table_name cls +:+ " IS '" +:+ comment +:+ "'")
    None.

(** [x or '{}']: [None] and the empty string are both false. *)
Definition or_empty_object (comment : option string) : string :=
  match comment with
  | Some text => if decide (text = "") then "{}" else text
  | None => "{}"
  end.

(** [set_comment] (lines 165 to 178). *)
Definition set_comment (cls : model) : M unit :=
  found ← get_comment cls;
  let comment := or_empty_object found in
  let comment :=
    match Json.loads comment with
    | Raise JSONDecodeError => Ok (Json.Object [("old_content", Json.Str comment)])
    | other => other
    end in
  match comment with
  | Raise e => raise e
  | Ok comment =>
      t ← time_from_db;
      match Json.setitem comment "last_updated" (Json.Str t) with
      | Raise e => raise e
      | Ok comment => _set_comment cls (Json.dumps comment)
      end
  end.

(** [sql_refresh] (lines 110 to 129) and [sql_vacuum] (lines 131 to 144).
    Their [try] logs a [ProgrammingError] and raises it again, so it does
    not show here.  The [return] sits under [if not dryrun]: past that [if]
    the method ends without a value. *)
Definition sql_refresh (kw : kwargs) (cls : model) : M (option statement) :=
  go ← (λ db, (Ok (update_mv cls db), db));
  if negb go then mret None
  else
    let concurrently := if concurrently cls then "CONCURRENTLY" else "" in
    let sql := "REFRESH MATERIALIZED VIEW " +:+ concurrently +:+ " " +:+ table_name cls in
    if negb (default false (dryrun kw)) then
      _ ← Engine.execute sql None;
      _ ← set_comment cls;
      mret (Some [PyStr sql; PyParams None])
    else mret None.

Definition sql_vacuum (kw : kwargs) (cls : model) : M (option statement) :=
  let sql := "VACUUM ANALYZE " +:+ table_name cls in
  if negb (default false (dryrun kw)) then
    _ ← Engine.execute sql None;
    mret (Some [PyStr sql; PyParams None])
  else mret None.

(** ** models.py: the plans of [ViewDefinition] (lines 247 to 303) *)

Section ViewDefinition.
Context (dj : django).

(** [sort_dependencies] does not touch the connection. *)
Definition ordered_models (apps : string) : M (list model) := λ db,
  (sort_dependencies dj apps, db).

(** [drop_all_statements] and [create_all_statements]; [dryrun] is [True]
    when it is not passed, as in [recreate]. *)
Definition drop_all_statements (dryrun : bool) (apps : string) : M (list statement) :=
  ordered_models ← ordered_models apps;
  let ordered_models := reverse ordered_models in
  for_each (ViewedModel_method (sql_drop (mkKwargs (Some false) (Some dryrun))))
    ordered_models.

Definition create_all_statements (dryrun : bool) (apps : string) : M (list statement) :=
  ordered_models ← ordered_models apps;
  for_each (ViewedModel_method (sql_create (mkKwargs (Some false) (Some dryrun))))
    ordered_models.

(** The test [len(s) == 0] of [recreate]. *)
Definition is_empty_statement (s : statement) : bool := bool_decide (length s = 0).

(** The body of the loop of [recreate]: [s += None] raises a
    [TypeError], [s[0]] and [s[1]] an [IndexError]. *)
Definition execute_statement (s : statement) : M unit :=
  if is_empty_statement s then raise TypeError
  else
    match s !! 0, s !! 1 with
    | Some (PyStr sql), Some (PyParams p) => Engine.execute sql p
    | Some _, Some _ => raise TypeError
    | _, _ => raise IndexError
    end.

Definition recreate (apps : string) : M unit :=
  atomic (
    statements ← drop_all_statements true apps;
    created ← create_all_statements true apps;
    let statements := statements ++ created in
    _ ← for_each execute_statement statements;
    mret ()).

Definition refresh_mv (apps : string) (kw : kwargs) : M (list (option statement)) :=
  atomic (
    ordered_models ← ordered_models apps;
    let mat_models := filter (λ m, materialized m = true) ordered_models in
    for_each (sql_refresh kw) mat_models).

Definition vacuum_mv (apps : string) (kw : kwargs) : M (list (option statement)) :=
  ordered_models ← ordered_models apps;
  let mat_models := filter (λ m, materialized m = true) ordered_models in
  for_each (sql_vacuum kw) mat_models.

End ViewDefinition.
End metadata.

(** ** A codec to run the code on concrete comments *)

(** [JsonText.codec] reads and prints JSON texts as Python does, for the
    texts made of objects, arrays, strings, integers, [true], [false] and
    [null], with characters below U+0100; it refuses the other texts
    (fractions, exponents, escapes of higher characters).  It is used for
    the concrete runs only; no general statement depends on it. *)
Module JsonText.
Import Json.

Definition hex_digit (n : N) : string :=
  String.substring (N.to_nat n) 1 "0123456789abcdef".

(** [ensure_ascii]: everything outside [' '..'~'] is escaped. *)
Definition escape_char (c : ascii) : string :=
  let n := N_of_ascii c in
  if (n =? 34)%N then "\" +:+ dquote
  else if (n =? 92)%N then "\\"
  else if (n =? 10)%N then "\n"
  else if (n =? 13)%N then "\r"
  else if (n =? 9)%N then "\t"
  else if (n =? 8)%N then "\b"
  else if (n =? 12)%N then "\f"
  else if ((32 <=? n) && (n <=? 126))%N then String c EmptyString
  else "\u00" +:+ hex_digit (n / 16) +:+ hex_digit (n mod 16).

Fixpoint escape (s : string) : string :=
  match s with
  | EmptyString => EmptyString
  | String c rest => escape_char c +:+ escape rest
  end.

Definition print_string (s : string) : string := dquote +:+ escape s +:+ dquote.

Fixpoint print (v : value) : string :=
  match v with
  | Null => "null"
  | Bool true => "true"
  | Bool false => "false"
  | Int n => pretty n
| Float repr => repr
  | Str s => print_string s
  | Array items => "[" +:+ Str.join ", " (map print items) +:+ "]"
  | Object members =>
      "{" +:+ Str.join ", " (map (λ kv, print_string kv.1 +:+ ": " +:+ print kv.2) members)
      +:+ "}"
  end.

Definition is_ws (c : ascii) : bool :=
  let n := N_of_ascii c in ((n =? 32) || (n =? 9) || (n =? 10) || (n =? 13))%N.

Fixpoint skip_ws (s : string) : string :=
  match s with
  | String c rest => if is_ws c then skip_ws rest else s
  | EmptyString => s
  end.

Definition hex_value (c : ascii) : option N :=
  let n := N_of_ascii c in
  if ((48 <=? n) && (n <=? 57))%N then Some (n - 48)%N
  else if ((97 <=? n) && (n <=? 102))%N then Some (n - 87)%N
  else if ((65 <=? n) && (n <=? 70))%N then Some (n - 55)%N
  else None.

(** The character of an escape [\uXXXX], when it is below U+0100. *)
Definition unicode_escape (a b c d : ascii) : option ascii :=
  a ← hex_value a; b ← hex_value b; c ← hex_value c; d ← hex_value d;
  if ((a =? 0) && (b =? 0))%N then Some (ascii_of_N (c * 16 + d)) else None.

(** A string after its opening quote. *)
Fixpoint read_string (s : string) : option (string * string) :=
  match s with
  | EmptyString => None
  | String "\" (String "u" (String a (String b (String c (String d rest))))) =>
      x ← unicode_escape a b c d;
      '(text, tail) ← read_string rest; Some (String x text, tail)
  | String "\" (String e rest) =>
      let n := N_of_ascii e in
      x ← (if (n =? 34)%N then Some e
           else if (n =? 92)%N then Some e
           else if (n =? 47)%N then Some e
           else if Ascii.eqb e "b" then Some (ascii_of_N 8)
           else if Ascii.eqb e "f" then Some (ascii_of_N 12)
           else if Ascii.eqb e "n" then Some (ascii_of_N 10)
           else if Ascii.eqb e "r" then Some (ascii_of_N 13)
           else if Ascii.eqb e "t" then Some (ascii_of_N 9)
           else None);
      '(text, tail) ← read_string rest; Some (String x text, tail)
  | String c rest =>
      let n := N_of_ascii c in
      if (n =? 34)%N then Some (EmptyString, rest)
      else if (n <? 32)%N then None
      else '(text, tail) ← read_string rest; Some (String c text, tail)
  end.

Definition is_digit (c : ascii) : bool :=
  let n := N_of_ascii c in ((48 <=? n) && (n <=? 57))%N.

Fixpoint read_digits (s : string) (acc : N) : N * string :=
  match s with
  | String c rest =>
      if is_digit c then read_digits rest (acc * 10 + (N_of_ascii c - 48))%N else (acc, s)
  | EmptyString => (acc, s)
  end.

(** An integer: digits without a leading zero, and neither a fraction
    nor an exponent after them. *)
Definition read_natural (s : string) : option (N * string) :=
  match s with
  | String c rest =>
      if negb (is_digit c) then None
      else
        let '(n, tail) := if Ascii.eqb c "0" then (0%N, rest) else read_digits s 0 in
        match tail with
        | String d _ =>
            if is_digit d || Ascii.eqb d "." || Ascii.eqb d "e" || Ascii.eqb d "E"
            then None else Some (n, tail)
        | EmptyString => Some (n, tail)
        end
  | EmptyString => None
  end.

Definition dict_of (members : list (string * value)) : list (string * value) :=
  fold_left (λ d kv, dict_set kv.1 kv.2 d) members [].

(** The three readers go down by one in [budget] at every call; a text of
    [n] characters needs [n + 1] at most, which is what [read] gives. *)
Fixpoint read_value (budget : nat) (s : string) : option (value * string) :=
  match budget with
  | 0 => None
  | S budget =>
      match skip_ws s with
      | String "{" rest =>
          match skip_ws rest with
          | String "}" tail => Some (Object [], tail)
          | _ => '(members, tail) ← read_members budget rest;
                 Some (Object (dict_of members), tail)
          end
      | String "[" rest =>
          match skip_ws rest with
          | String "]" tail => Some (Array [], tail)
          | _ => '(items, tail) ← read_items budget rest; Some (Array items, tail)
          end
      | String "-" rest => '(n, tail) ← read_natural rest; Some (Int (- Z.of_N n), tail)
      | String c rest as text =>
          if (N_of_ascii c =? 34)%N then
            '(str, tail) ← read_string rest; Some (Str str, tail)
          else if is_digit c then
            '(n, tail) ← read_natural text; Some (Int (Z.of_N n), tail)
          else
            match Engine.strip_prefix "true" text, Engine.strip_prefix "false" text,
                  Engine.strip_prefix "null" text with
            | Some tail, _, _ => Some (Bool true, tail)
            | _, Some tail, _ => Some (Bool false, tail)
            | _, _, Some tail => Some (Null, tail)
            | _, _, _ => None
            end
      | EmptyString => None
      end
  end
with read_members (budget : nat) (s : string) : option (list (string * value) * string) :=
  match budget with
  | 0 => None
  | S budget =>
      match skip_ws s with
      | String c rest =>
          if negb (N_of_ascii c =? 34)%N then None
          else
            '(key, rest) ← read_string rest;
            match skip_ws rest with
            | String ":" rest =>
                '(v, rest) ← read_value budget rest;
                match skip_ws rest with
                | String "," rest =>
                    '(more, tail) ← read_members budget rest; Some ((key, v) :: more, tail)
                | String "}" tail => Some ([(key, v)], tail)
                | _ => None
                end
            | _ => None
            end
      | EmptyString => None
      end
  end
with read_items (budget : nat) (s : string) : option (list value * string) :=
  match budget with
  | 0 => None
  | S budget =>
      '(v, rest) ← read_value budget s;
      match skip_ws rest with
      | String "," rest => '(more, tail) ← read_items budget rest; Some (v :: more, tail)
      | String "]" tail => Some ([v], tail)
      | _ => None
      end
  end.

Definition read (text : string) : result value :=
  match read_value (S (String.length text)) text with
  | Some (v, tail) => if decide (skip_ws tail = "") then Ok v else Raise JSONDecodeError
  | None => Raise JSONDecodeError
  end.

Definition codec : Codec := {| loads := read; dumps := print |}.

End JsonText.

(** * Vocabulary of the statements *)

(** [x] comes before [y] in [l]. *)
Definition before {A} (x y : A) (l : list A) : Prop :=
  ∃ l1 l2 l3, l = l1 ++ x :: l2 ++ y :: l3.

(** [k] has [d] among its dependencies. *)
Definition edge (data : graph) (k d : string) : Prop :=
  ∃ deps, data !! k = Some deps ∧ d ∈ deps.

(** The same, a dependency of an item on itself left out. *)
Definition edge_to_other (data : graph) (k d : string) : Prop :=
  edge data k d ∧ d ≠ k.

Definition has_cycle (data : graph) : Prop := ∃ k, tc (edge data) k k.

Definition acyclic (data : graph) : Prop := ∀ k, ¬ tc (edge data) k k.

(** A walk along the edges from [k], given by the items after [k]. *)
Fixpoint walk (data : graph) (k : string) (p : list string) : Prop :=
  match p with
  | [] => True
  | d :: p => edge data k d ∧ walk data d p
  end.

(** The identifier of a class in the graph. *)
Definition name_of (dj : django) (m : model) : string := model_default_table_name dj m.

(** The classes whose dependencies the first loop records: below
    [ViewedModel], in scope, not abstract. *)
Definition scheduled_class (dj : django) (apps : string) (c : model) : Prop :=
  c ∈ get_subclasses (ViewedModel dj) ∧ skipped_by_scope apps c = false ∧ abstract c = false.

(** [c] lists a dependency that the registry resolves to [m]. *)
Definition declares (dj : django) (c m : model) : Prop :=
  ∃ dependency, dependency ∈ dependencies c ∧
    get_model dj dependency.1 dependency.2 = Ok m.

(** [s] is what [sql_drop], or [sql_create], returns for [cls]. *)
Definition drop_of (cls : model) (s : statement) : Prop :=
  ∃ kw db, (sql_drop kw cls db).1 = Ok s.

Definition create_of (cls : model) (s : statement) : Prop :=
  ∃ kw db, (sql_create kw cls db).1 = Ok s.

(** [c] occurs in [s]. *)
Fixpoint has_char (c : ascii) (s : string) : bool :=
  match s with
  | EmptyString => false
  | String c' rest => Ascii.eqb c' c || has_char c rest
  end.

(** Lists put together with [++] in two ways. *)
Ltac reassoc := repeat (rewrite <- app_assoc; simpl); try done.

(** * Scenarios *)

Module Scenario.

Definition always : DB → bool := λ _, true.
Definition never : DB → bool := λ _, false.

(** A view class that writes its own [sql]. *)
Definition view (app name : string) (declared : list (string * string)) : model :=
  mkModel app name (app +:+ "_" +:+ name) false BaseViewedModel declared
    (Some ("SELECT * FROM source_of_" +:+ name)) None true always.

Definition materialized_view (app name : string) (declared : list (string * string))
    (body : option string) (policy : DB → bool) : model :=
  mkModel app name (app +:+ "_" +:+ name) false BaseMaterializedViewedModel declared
    body None true policy.

(** An ordinary table model. *)
Definition table (app name : string) : model :=
  mkModel app name (app +:+ "_" +:+ name) false BaseModel [] None None true always.

Definition ViewedModel_class : model :=
  mkModel "viewedmodels" "viewedmodel" "viewedmodels_viewedmodel" true BaseViewedModel
    [("Aims", "Activity")] None None true always.

Definition MaterializedViewedModel_class : model :=
  mkModel "viewedmodels" "materializedviewedmodel" "viewedmodels_materializedviewedmodel"
    true BaseMaterializedViewedModel [("Aims", "Activity")] None None true always.

(** [apps.app_configs] for a list of installed model classes. *)
Definition installed (models : list model) : gmap string (gmap string model) :=
  foldr (λ m registry,
           <[app_label m := <[model_name m := m]> (default ∅ (registry !! app_label m))]>
             registry) ∅ models.

(** The registry with these tables, plain views and materialized views,
    on PostgreSQL (identifiers of 63 characters at most). *)
Definition project (tables views materialized_views : list model) : django :=
  mkDjango (installed (tables ++ views ++ materialized_views))
    (Class ViewedModel_class
       (Class MaterializedViewedModel_class ((λ m, Class m []) <$> materialized_views)
        :: ((λ m, Class m []) <$> views)))
    63 (λ _, "0000").

(** A without dependencies, B on A, C on B; declared in the order C, A, B. *)
Definition A : model := view "shop" "a" [].
Definition B : model := view "shop" "b" [("shop", "A")].
Definition C : model := view "shop" "c" [("shop", "B")].
Definition abc : django := project [] [C; A; B] [].
Definition abc_graph : graph := {[ "shop_b" := {[ "shop_a" ]}; "shop_c" := {[ "shop_b" ]} ]}.
Definition abc_rank (name : string) : nat :=
  if decide (name = "shop_a") then 0 else if decide (name = "shop_b") then 1 else 2.

(** X on Y and Y on X. *)
Definition X : model := view "loop" "x" [("loop", "Y")].
Definition Y : model := view "loop" "y" [("loop", "X")].
Definition xy : django := project [] [X; Y] [].
Definition xy_graph : graph := {[ "loop_x" := {[ "loop_y" ]}; "loop_y" := {[ "loop_x" ]} ]}.

(** A view that lists itself as its dependency. *)
Definition Own : model := view "loop" "own" [("loop", "Own")].
Definition own : django := project [] [Own] [].
Definition own_graph : graph := {[ "loop_own" := {[ "loop_own" ]} ]}.

(** Two apps: the view [ns1.report] reads the view [ns2.base], which
    reads the table [ns2.sales]. *)
Definition sales : model := table "ns2" "sales".
Definition base_view : model := view "ns2" "base" [("ns2", "Sales")].
Definition report : model := view "ns1" "report" [("ns2", "Base")].
Definition two_apps : django := project [sales] [base_view; report] [].

(** Materialized views: one with a body, one that never wrote [sql], one
    whose [update_mv] says no; and a plain view that never wrote [sql]. *)
Definition totals : model :=
  materialized_view "shop" "totals" [] (Some "SELECT sum(price) FROM shop_order") always.
Definition unwritten : model := materialized_view "shop" "unwritten" [] None always.
Definition paused : model :=
  materialized_view "shop" "paused" [] (Some "SELECT 1") never.
Definition unwritten_plain : model :=
  mkModel "shop" "draft" "shop_draft" false BaseViewedModel [] None None true always.

(** A database where [shop_totals] exists with the given comment, and
    that refuses nothing. *)
Definition database (comment : option string) : DB :=
  mkDB {[ "shop_totals" := comment; "shop_paused" := comment ]} []
    "2024-01-01 00:00:00+00" (λ _, false).

Definition render_only : kwargs := mkKwargs None (Some true).
Definition no_kwargs : kwargs := mkKwargs None None.

(** Comments. *)
Definition legacy_comment : string := "hello".
Definition quoted_comment : string :=
  JsonText.print (Json.Object [("owner", Json.Str "O'Brien")]).
Definition plain_comment : string :=
  JsonText.print (Json.Object [("owner", Json.Str "ops"); ("rows", Json.Int 12)]).

End Scenario.

(** * The rest of the code, and more projects *)

(** ** helpers.py: [dependency_lookup] (lines 59 to 66) *)

(** ['"{}"'.format(name)]. *)
Definition quoted (name : string) : string := dquote +:+ name +:+ dquote.

(** The dict comprehension of [dependency_lookup], from the dict built so
    far: for each dependency in turn the key, then the value, whose
    [get_model] may raise; a key met again takes the later value. *)
Fixpoint dependency_lookup_from (dj : django) (dependencies : list (string * string))
    (d : gmap string string) : result (gmap string string) :=
  match dependencies with
  | [] => Ok d
  | dep :: dependencies =>
      let key := default_table_name dj dep.1 dep.2 in
      value ← table_name_get_model dj dep.1 dep.2;
      dependency_lookup_from dj dependencies (<[key := quoted value]> d)
  end.

Definition dependency_lookup (dj : django) (dependencies : list (string * string))
    : result (gmap string string) :=
  dependency_lookup_from dj dependencies ∅.


(** ** Vocabulary of the runs *)

(** [dep] is the last of [dependencies] with the key [key], and the
    registry resolves it to [m]. *)
Definition last_with_key (dj : django) (dependencies : list (string * string))
    (key : string) (m : model) : Prop :=
  ∃ l1 dep l2, dependencies = l1 ++ dep :: l2 ∧
    key = default_table_name dj dep.1 dep.2 ∧
    (∀ later, later ∈ l2 → default_table_name dj later.1 later.2 ≠ key) ∧
    get_model dj dep.1 dep.2 = Ok m.

(** The SQL text that [sql_drop] renders with [drop_cascade=False], as the
    plans call it (the cascade is then the empty string), and the texts
    that [sql_create], [sql_refresh], [sql_vacuum] and [_set_comment]
    render. *)
Definition drop_text (cls : model) : string :=
  "DROP " +:+ view_type cls +:+ " IF EXISTS " +:+ dquote +:+ table_name cls +:+ dquote
  +:+ " " +:+ EmptyString +:+ ";".

Definition create_text (cls : model) : string :=
  "CREATE " +:+ view_type cls +:+ " " +:+ dquote +:+ table_name cls +:+ dquote
  +:+ " AS (" +:+ format_value (own_sql cls) +:+ ")".

Definition refresh_text (cls : model) : string :=
  "REFRESH MATERIALIZED VIEW " +:+ (if concurrently cls then "CONCURRENTLY" else EmptyString)
  +:+ " " +:+ table_name cls.

Definition vacuum_text (cls : model) : string := "VACUUM ANALYZE " +:+ table_name cls.

Definition comment_text (cls : model) (comment : string) : string :=
  "COMMENT ON MATERIALIZED VIEW " +:+ table_name cls +:+ " IS '" +:+ comment +:+ "'".

(** The statements of a list that the engine takes, up to the first one
    that it refuses. *)
Fixpoint accepted (db : DB) (statements : list (string * option (list string)))
    : list (string * option (list string)) :=
  match statements with
  | [] => []
  | s :: statements => if rejects db s.1 then [] else s :: accepted db statements
  end.

(** The database after the engine has run these statements, none of which
    is a comment statement. *)
Definition ran (db : DB) (statements : list (string * option (list string))) : DB :=
  mkDB (relations db) (executed db ++ statements) (now db) (rejects db).

(** A statement as the methods return it: the text and the parameters. *)
Definition rendered (s : string * option (list string)) : statement :=
  [PyStr s.1; PyParams s.2].

Definition drop_of_class (cls : model) : string * option (list string) :=
  (drop_text cls, None).

Definition create_of_class (cls : model) : string * option (list string) :=
  (create_text cls, params cls).

Definition vacuum_of_class (cls : model) : string * option (list string) :=
  (vacuum_text cls, None).

(** The statement is not a [COMMENT ON MATERIALIZED VIEW]. *)
Definition plain (sql : string) : Prop :=
  Engine.strip_prefix "COMMENT ON MATERIALIZED VIEW " sql = None.

(** More projects to run the code on. *)
Module Cases.

(** A view whose dependency is not registered, and the same project with
    one more view, in another app, that can be resolved. *)
Definition orphan : model := Scenario.view "shop" "orphan" [("shop", "Missing")].
Definition broken : django := Scenario.project [] [Scenario.A; orphan; Scenario.report] [].

(** A view whose class name has an underscore. *)
Definition my_view : model := Scenario.view "shop" "my_view" [("shop", "A")].
Definition underscored : django := Scenario.project [] [Scenario.A; my_view] [].

(** A view without dependencies beside A, B and C. *)
Definition alone : model := Scenario.view "shop" "alone" [].
Definition abc_alone : django := Scenario.project [] [Scenario.C; alone; Scenario.A; Scenario.B] [].

(** A, B and C again, the classes defined in another order. *)
Definition bca : django := Scenario.project [] [Scenario.B; Scenario.C; Scenario.A] [].

(** A table that keeps a custom [db_table], beside a view. *)
Definition ledger : model :=
  mkModel "shop" "ledger" "legacy_ledger_2009" false BaseModel [] None None true
    Scenario.always.
Definition bookkeeping : django := Scenario.project [ledger] [Scenario.A] [].

(** Two materialized views, [daily] reading [totals], and a database that
    refuses the [VACUUM] of the second. *)
Definition daily : model :=
  Scenario.materialized_view "shop" "daily" [("shop", "Totals")] (Some "SELECT 2")
    Scenario.always.
Definition warehouse : django := Scenario.project [] [] [Scenario.totals; daily].
Definition locked : DB :=
  mkDB {[ "shop_totals" := None; "shop_daily" := None ]} []
    "2024-01-01 00:00:00+00" (λ sql, String.eqb sql "VACUUM ANALYZE shop_daily").

End Cases.

(** * Facts *)

(** ** Order in a list *)

Section before.
Context {A : Type}.
Implicit Types (x y z : A) (l : list A).

Lemma before_app_l x y l l' : before x y l → before x y (l ++ l').
Proof.
  intros (l1 & l2 & l3 & ->). exists l1, l2, (l3 ++ l').
  reassoc.
Qed.

Lemma before_app_r x y l l' : before x y l' → before x y (l ++ l').
Proof.
  intros (l1 & l2 & l3 & ->). exists (l ++ l1), l2, l3.
  reassoc.
Qed.

Lemma before_app x y l l' : x ∈ l → y ∈ l' → before x y (l ++ l').
Proof.
  intros (a1 & a2 & ->)%list_elem_of_split (b1 & b2 & ->)%list_elem_of_split.
  exists a1, (a2 ++ b1), b2. reassoc.
Qed.

Lemma before_cons x y z l : before x y l → before x y (z :: l).
Proof. apply (before_app_r x y [z]). Qed.

Lemma before_head x y l : y ∈ l → before x y (x :: l).
Proof. intros Hy. apply (before_app x y [x] l); [set_solver | done]. Qed.

Lemma before_lookup x y l :
  before x y l ↔ ∃ i j : nat, (i < j)%nat ∧ l !! i = Some x ∧ l !! j = Some y.
Proof.
  split.
  - intros (l1 & l2 & l3 & ->).
    exists (length l1), (length l1 + S (length l2)). split; [lia |]. split.
    + by rewrite list_lookup_middle.
    + rewrite lookup_app_r by lia.
      replace (length l1 + S (length l2) - length l1) with (S (length l2)) by lia.
      simpl. by rewrite list_lookup_middle.
  - intros (i & j & Hij & Hi & Hj).
    apply list_elem_of_split_length in Hi as (l1 & r & -> & ->).
    rewrite lookup_app_r in Hj by lia.
    destruct (j - length l1) as [|j'] eqn:Hj'; [lia |]. simpl in Hj.
    apply list_elem_of_split_length in Hj as (l2 & l3 & -> & _).
    by exists l1, l2, l3.
Qed.

Lemma before_irrefl x l : NoDup l → ¬ before x x l.
Proof.
  intros Hnd (i & j & Hij & Hi & Hj)%before_lookup.
  pose proof (NoDup_lookup _ _ _ _ Hnd Hi Hj). lia.
Qed.

Lemma before_trans x y z l : NoDup l → before x y l → before y z l → before x z l.
Proof.
  intros Hnd (i & j & Hij & Hi & Hj)%before_lookup (j' & k & Hjk & Hj' & Hk)%before_lookup.
  pose proof (NoDup_lookup _ _ _ _ Hnd Hj Hj'). subst j'.
  apply before_lookup. exists i, k. split; [lia | done].
Qed.

Lemma before_reverse x y l : before x y l → before y x (reverse l).
Proof.
  intros (l1 & l2 & l3 & ->). exists (reverse l3), (reverse l2), (reverse l1).
  rewrite !reverse_app, !reverse_cons, !reverse_app, !reverse_cons.
  reassoc.
Qed.
End before.

(** ** The loop of [toposort] *)

Section toposort_facts.
Import Toposort.
Implicit Types (data : graph) (k d : string) (deps ordered : gset string).

Lemma elem_of_ready data k : k ∈ ready data ↔ data !! k = Some ∅.
Proof.
  unfold ready. rewrite elem_of_dom. split.
  - intros [v [Hv Hp]%map_lookup_filter_Some]. simpl in Hp. by subst.
  - intros Hk. exists ∅. by apply map_lookup_filter_Some.
Qed.

Lemma ready_subseteq data : ready data ⊆ dom data.
Proof. intros k Hk%elem_of_ready. apply elem_of_dom. eauto. Qed.

Lemma lookup_prune ordered data k :
  prune ordered data !! k =
  if decide (k ∈ ordered) then None else (λ dep, dep ∖ ordered) <$> data !! k.
Proof.
  unfold prune. rewrite lookup_fmap.
  destruct (decide (k ∈ ordered)) as [Hin | Hout].
  - rewrite (proj2 (map_lookup_filter_None _ _ _)); [done |].
    right. intros v _ Hv. by apply Hv.
  - destruct (data !! k) as [v |] eqn:Hk; simpl.
    + by rewrite (proj2 (map_lookup_filter_Some _ _ _ _) (conj Hk Hout)).
    + rewrite (proj2 (map_lookup_filter_None _ _ _)); [done |]. by left.
Qed.

Lemma dom_prune ordered data : dom (prune ordered data) = dom data ∖ ordered.
Proof.
  apply set_eq. intros k.
  rewrite elem_of_difference, !elem_of_dom, lookup_prune.
  destruct (decide (k ∈ ordered)).
  - split; [by intros [? ?] | by intros [_ ?]].
  - rewrite fmap_is_Some. tauto.
Qed.

Lemma size_prune data :
  ready data ≠ ∅ → (size (prune (ready data) data) < size data)%nat.
Proof.
  intros [k Hk]%set_choose_L.
  rewrite <- !size_dom, dom_prune.
  apply subset_size. apply elem_of_ready in Hk as Hl.
  assert (k ∈ dom data) by (apply elem_of_dom; eauto).
  set_solver.
Qed.

Lemma ready_empty : ready (∅ : graph) = ∅.
Proof. apply set_eq. intros k. rewrite elem_of_ready, lookup_empty. set_solver. Qed.

(** Any two budgets of rounds that cover the size of the data give the
    same run: the loop has ended by itself before the budget is used up. *)
Lemma loop_enough (n : nat) : ∀ (m : nat) data,
  (size data ≤ n)%nat → (size data ≤ m)%nat → loop n data = loop m data.
Proof.
  induction n as [| n IH]; intros m data Hn Hm.
  - assert (data = ∅) as -> by (apply map_size_empty_iff; lia).
    destruct m; simpl; [done |]. by rewrite ready_empty, decide_True.
  - destruct m as [| m].
    + assert (data = ∅) as -> by (apply map_size_empty_iff; lia).
      simpl. by rewrite ready_empty, decide_True.
    + simpl. destruct (decide (ready data = ∅)) as [| Hne]; [done |].
      pose proof (size_prune data Hne). f_equal. apply IH; lia.
Qed.

(** With that budget the model satisfies the equation of the source loop:
    break when nothing is ready, else yield and go round again. *)
Lemma loop_unfold data :
  loop (size data) data =
  if decide (ready data = ∅) then finish data
  else cons (ready data) <$>
       loop (size (prune (ready data) data)) (prune (ready data) data).
Proof.
  destruct (size data) as [| n] eqn:Hsz.
  - assert (data = ∅) as -> by (by apply map_size_empty_iff).
    simpl. by rewrite ready_empty, decide_True.
  - simpl. destruct (decide (ready data = ∅)) as [| Hne]; [done |].
    pose proof (size_prune data Hne). f_equal. apply loop_enough; lia.
Qed.

Lemma elem_of_sorted ordered k : k ∈ Str.sorted ordered ↔ k ∈ ordered.
Proof. unfold Str.sorted. by rewrite merge_sort_Permutation, elem_of_elements. Qed.

(** [Str.sorted] puts its items in the order of [sorted]. *)
Lemma sorted_Sorted ordered : Sorted Str.le (Str.sorted ordered).
Proof.
  apply Sorted_merge_sort. intros s t. unfold Str.le.
  destruct (String.leb_total s t) as [-> | ->]; [by left | by right].
Qed.

Lemma NoDup_sorted ordered : NoDup (Str.sorted ordered).
Proof. unfold Str.sorted. rewrite merge_sort_Permutation. apply NoDup_elements. Qed.

(** What a successful run of the loop returns: every key once, each
    after all of its dependencies. *)
Lemma loop_sound n : ∀ data levels,
  loop n data = Ok levels →
  let fl := concat (Str.sorted <$> levels) in
  NoDup fl ∧ (∀ k, k ∈ fl ↔ k ∈ dom data) ∧
  (∀ k deps d, data !! k = Some deps → d ∈ deps → before d k fl).
Proof.
  assert (Hfin : ∀ data levels, finish data = Ok levels →
    let fl := concat (Str.sorted <$> levels) in
    NoDup fl ∧ (∀ k, k ∈ fl ↔ k ∈ dom data) ∧
    (∀ k deps d, data !! k = Some deps → d ∈ deps → before d k fl)).
  { intros data levels. unfold finish. case_decide as He; [| done].
    intros [= <-]. subst data. simpl. split_and!.
    - constructor.
    - intros k. rewrite dom_empty_L. set_solver.
    - intros k deps d. by rewrite lookup_empty. }
  induction n as [| n IH]; intros data levels; simpl; [apply Hfin |].
  destruct (decide (ready data = ∅)) as [| Hne]; [apply Hfin |].
  destruct (loop n (prune (ready data) data)) as [levels' |] eqn:Hrec; [| done].
  intros [= <-]. simpl.
  destruct (IH _ _ Hrec) as (Hnd & Hdom & Hord). split_and!.
  - apply NoDup_app. split_and!; [apply NoDup_sorted | | done].
    intros k Hk%elem_of_sorted Hk'%Hdom. rewrite dom_prune in Hk'. set_solver.
  - intros k. rewrite elem_of_app, elem_of_sorted, Hdom, dom_prune.
    pose proof (ready_subseteq data).
    destruct (decide (k ∈ ready data)); set_solver.
  - intros k deps d Hk Hd.
    assert (k ∉ ready data) as Hnr.
    { intros Hr%elem_of_ready. rewrite Hk in Hr. set_solver. }
    assert (prune (ready data) data !! k = Some (deps ∖ ready data)) as Hk'.
    { by rewrite lookup_prune, decide_False, Hk. }
    destruct (decide (d ∈ ready data)) as [Hdr | Hdr].
    + apply before_app; [by apply elem_of_sorted |].
      apply Hdom, elem_of_dom. eauto.
    + apply before_app_r. eapply Hord; [done |]. set_solver.
Qed.
End toposort_facts.

Section cycles.
Import Toposort.
Implicit Types (data g : graph) (k d : string).

Lemma edge_prune ordered data k d :
  edge (prune ordered data) k d → edge data k d ∧ (d ∉ ordered) ∧ (k ∉ ordered).
Proof.
  intros (deps & Hk & Hd). rewrite lookup_prune in Hk.
  destruct (decide (k ∈ ordered)); [done |].
  apply fmap_Some in Hk as (deps0 & Hk & ->).
  split; [exists deps0 |]; set_solver.
Qed.

Lemma tc_edge_mono (R R' : relation string) k d :
  (∀ x y, R x y → R' x y) → tc R k d → tc R' k d.
Proof. intros HR. induction 1; [apply tc_once | eapply tc_l]; eauto. Qed.

Lemma walk_tc data k p x : walk data k p → x ∈ p → tc (edge data) k x.
Proof.
  revert k. induction p as [| d p IH]; intros k Hw Hx; [set_solver |].
  destruct Hw as [Hkd Hw]. apply elem_of_cons in Hx as [-> | Hx].
  - by apply tc_once.
  - eapply tc_l; [done |]. by apply IH.
Qed.

Lemma walk_repeat data k p : walk data k p → ¬ NoDup (k :: p) → has_cycle data.
Proof.
  revert k. induction p as [| d p IH]; intros k Hw Hnd.
  - destruct Hnd. apply NoDup_singleton.
  - destruct (decide (k ∈ d :: p)) as [Hin | Hout].
    + exists k. by eapply walk_tc.
    + destruct Hw as [_ Hw]. apply (IH d Hw). intros Hnd'.
      apply Hnd. by constructor.
Qed.

Section no_sink.
Context (data : graph).
Hypothesis closed : ∀ k d, edge data k d → d ∈ dom data.
Hypothesis no_sink : ready data = ∅.

Lemma step_exists k : k ∈ dom data → ∃ d, edge data k d.
Proof.
  intros [deps Hk]%elem_of_dom.
  destruct (decide (deps = ∅)) as [-> | [d Hd]%set_choose_L].
  - apply elem_of_ready in Hk. set_solver.
  - exists d, deps. done.
Qed.

Lemma walk_exists (n : nat) : ∀ k, k ∈ dom data →
  ∃ p, length p = n ∧ walk data k p ∧ ∀ x, x ∈ p → x ∈ dom data.
Proof.
  induction n as [| n IH]; intros k Hk.
  - exists []. split_and!; [done | done | set_solver].
  - destruct (step_exists k Hk) as [d Hd].
    destruct (IH d (closed _ _ Hd)) as (p & Hlen & Hw & Hdom).
    exists (d :: p). split_and!; [simpl; by f_equal | done |].
    intros x [-> | Hx]%elem_of_cons; eauto.
Qed.

(** Pigeonhole: when every item still waits for another one, a walk
    longer than the number of items comes back to where it has been. *)
Lemma no_sink_cycle : data ≠ ∅ → has_cycle data.
Proof.
  intros [k Hk]%map_choose.
  assert (k ∈ dom data) as Hkd by (apply elem_of_dom; destruct Hk; eauto).
  destruct (walk_exists (size (dom data)) k Hkd) as (p & Hlen & Hw & Hdom).
  apply (walk_repeat data k p Hw). intros Hnd.
  assert (k :: p ⊆+ elements (dom data)) as Hsub.
  { apply NoDup_submseteq; [done |].
    intros x [-> | Hx]%elem_of_cons; apply elem_of_elements; eauto. }
  apply submseteq_length in Hsub. simpl in Hsub.
  unfold size, set_size in Hlen. simpl in Hlen. lia.
Qed.
End no_sink.

Lemma loop_total (n : nat) : ∀ data,
  (∀ k d, edge data k d → d ∈ dom data) → acyclic data → (size data ≤ n)%nat →
  ∃ levels, loop n data = Ok levels.
Proof.
  assert (Hfin : ∀ data, (∀ k d, edge data k d → d ∈ dom data) → acyclic data →
    ready data = ∅ → ∃ levels, finish data = Ok levels).
  { intros data Hcl Hac Hr. unfold finish. case_decide as He; [by eexists |].
    destruct (no_sink_cycle data Hcl Hr He) as [k Hk]. by destruct (Hac k). }
  induction n as [| n IH]; intros data Hcl Hac Hsz; simpl.
  - apply Hfin; [done | done |].
    assert (data = ∅) as -> by (apply map_size_empty_iff; lia). apply ready_empty.
  - destruct (decide (ready data = ∅)) as [| Hne]; [by apply Hfin |].
    destruct (IH (prune (ready data) data)) as [levels Hl].
    + intros k d Hkd. apply edge_prune in Hkd as (Hkd & Hd & _).
      rewrite dom_prune. apply Hcl in Hkd. set_solver.
    + intros k Hk. apply (Hac k). eapply tc_edge_mono; [| done].
      intros x y Hxy. by apply edge_prune in Hxy as [? _].
    + pose proof (size_prune data Hne). lia.
    + rewrite Hl. by eexists.
Qed.

Lemma loop_raise (n : nat) : ∀ data e,
  (size data ≤ n)%nat → loop n data = Raise e →
  ∃ rest, e = CircularDependencyError rest ∧ rest ≠ ∅ ∧ ready rest = ∅.
Proof.
  assert (Hfin : ∀ data e, ready data = ∅ → finish data = Raise e →
    ∃ rest, e = CircularDependencyError rest ∧ rest ≠ ∅ ∧ ready rest = ∅).
  { intros data e Hr. unfold finish. case_decide; [done |]. intros [= <-]. eauto. }
  induction n as [| n IH]; intros data e Hsz; simpl.
  - assert (data = ∅) as -> by (apply map_size_empty_iff; lia).
    apply Hfin, ready_empty.
  - destruct (decide (ready data = ∅)) as [| Hne]; [by apply Hfin |].
    pose proof (size_prune data Hne).
    destruct (loop n (prune (ready data) data)) as [| e'] eqn:Hrec; [done |].
    intros [= <-]. eapply IH; [| done]. lia.
Qed.

Lemma lookup_discard_self data k :
  discard_self data !! k = (λ v, v ∖ {[k]}) <$> data !! k.
Proof. unfold discard_self. rewrite map_lookup_imap. by destruct (data !! k). Qed.

Lemma dom_discard_self data : dom (discard_self data) = dom data.
Proof.
  apply set_eq. intros k. rewrite !elem_of_dom, lookup_discard_self.
  by rewrite fmap_is_Some.
Qed.

Lemma lookup_prepare g k :
  prepare g !! k =
  match g !! k with
  | Some deps => Some (deps ∖ {[k]})
  | None => if decide (∃ k', edge (discard_self g) k' k) then Some ∅ else None
  end.
Proof.
  unfold prepare. destruct (g !! k) as [deps |] eqn:Hk.
  - apply lookup_union_Some_l. by rewrite lookup_discard_self, Hk.
  - rewrite lookup_union_r by (by rewrite lookup_discard_self, Hk).
    rewrite lookup_gset_to_gmap. unfold extra_items_in_deps.
    assert (k ∉ dom (discard_self g)) as Hnd.
    { rewrite dom_discard_self. by apply not_elem_of_dom. }
    case_decide as He.
    + rewrite option_guard_True; [done |].
      destruct He as (k' & deps & Hk' & Hd).
      apply elem_of_difference. split; [| done].
      apply elem_of_union_list. exists deps. split; [| done].
      apply list_elem_of_fmap. exists (k', deps). split; [done |].
      by apply elem_of_map_to_list.
    + rewrite option_guard_False; [done |].
      intros [(deps & Hin & Hd)%elem_of_union_list _]%elem_of_difference.
      apply list_elem_of_fmap in Hin as ([k' deps'] & -> & Hin%elem_of_map_to_list).
      apply He. exists k', deps'. done.
Qed.

Lemma edge_discard_self g k d : edge (discard_self g) k d ↔ edge g k d ∧ d ≠ k.
Proof.
  unfold edge. setoid_rewrite lookup_discard_self. setoid_rewrite fmap_Some. split.
  - intros (deps & (deps0 & Hk & ->) & Hd). split; [exists deps0 |]; set_solver.
  - intros [(deps & Hk & Hd) Hne]. exists (deps ∖ {[k]}). split; [eauto | set_solver].
Qed.

Lemma edge_prepare g k d : edge (prepare g) k d ↔ edge g k d ∧ d ≠ k.
Proof.
  rewrite <- edge_discard_self. unfold edge at 1. setoid_rewrite lookup_prepare.
  unfold edge. setoid_rewrite lookup_discard_self. split.
  - intros (deps & Hk & Hd). destruct (g !! k) as [deps0 |].
    + exists deps. by simplify_eq.
    + case_decide; simplify_eq. set_solver.
  - intros (deps & Hk & Hd). apply fmap_Some in Hk as (deps0 & Hk & ->).
    rewrite Hk. eauto.
Qed.

Lemma elem_of_dom_prepare g k :
  k ∈ dom (prepare g) ↔ k ∈ dom g ∨ ∃ k', edge g k' k ∧ k ≠ k'.
Proof.
  rewrite !elem_of_dom, lookup_prepare. setoid_rewrite <- edge_discard_self.
  destruct (g !! k) as [deps |] eqn:Hk.
  - split; [left | ]; eauto.
  - case_decide as He; split; eauto.
    intros [[? ?] | ?]; done.
Qed.

Lemma prepare_closed g k d : edge (prepare g) k d → d ∈ dom (prepare g).
Proof.
  intros [Hkd Hne]%edge_prepare. apply elem_of_dom_prepare. right. eauto.
Qed.
End cycles.

(** ** What [toposort_flatten] returns *)

Section toposort_flatten_facts.
Import Toposort.
Implicit Types (g : graph) (k d : string) (fl : list string).

Lemma toposort_flatten_sound g fl :
  toposort_flatten g = Ok fl →
  NoDup fl ∧
  (∀ k d, edge g k d → d ≠ k → before d k fl) ∧
  (∀ k, k ∈ fl ↔ k ∈ dom g ∨ ∃ k', edge g k' k ∧ k ≠ k').
Proof.
  unfold toposort_flatten, toposort. case_decide as He.
  - intros [= <-]. subst g. split_and!.
    + constructor.
    + intros k d (deps & Hk & _). by rewrite lookup_empty in Hk.
    + intros k. rewrite dom_empty_L. split; [set_solver |].
      intros [? | (k' & (deps & Hk & _) & _)]; [set_solver |].
      by rewrite lookup_empty in Hk.
  - destruct (loop _ _) as [levels |] eqn:Hl; [| done].
    intros [= <-]. apply loop_sound in Hl as (Hnd & Hdom & Hord).
    split_and!; [done | |].
    + intros k d Hkd Hne.
      destruct (proj2 (edge_prepare g k d) (conj Hkd Hne)) as (deps & Hk & Hd).
      by eapply Hord.
    + intros k. by rewrite Hdom, elem_of_dom_prepare.
Qed.

Lemma toposort_flatten_total g :
  acyclic g → ∃ fl, toposort_flatten g = Ok fl.
Proof.
  intros Hac. unfold toposort_flatten, toposort. case_decide; [by eexists |].
  destruct (loop_total (size (prepare g)) (prepare g)) as [levels ->];
    [apply prepare_closed | | done | by eexists].
  intros k Hk. apply (Hac k). eapply tc_edge_mono; [| done].
  intros x y Hxy. by apply edge_prepare in Hxy as [? _].
Qed.

(** The only exception [toposort_flatten] raises, and what it carries:
    the items left over, each of which still waits for another one. *)
Lemma toposort_flatten_raise g e :
  toposort_flatten g = Raise e →
  ∃ rest, e = CircularDependencyError rest ∧ rest ≠ ∅ ∧ ready rest = ∅.
Proof.
  unfold toposort_flatten, toposort. case_decide; [done |].
  destruct (loop _ _) as [| e'] eqn:Hl; [done |]. intros [= <-].
  by eapply loop_raise.
Qed.

(** A cycle through at least two items makes [toposort_flatten] fail. *)
Lemma toposort_flatten_cycle g k :
  tc (edge_to_other g) k k →
  ∃ rest, toposort_flatten g = Raise (CircularDependencyError rest).
Proof.
  intros Hcyc. destruct (toposort_flatten g) as [fl | e] eqn:Hfl.
  - exfalso. apply toposort_flatten_sound in Hfl as (Hnd & Hord & _).
    assert (∀ x y, tc (edge_to_other g) x y → before y x fl) as Hb.
    { induction 1 as [x y [Hxy Hne] | x y z [Hxy Hne] _ IH]; [by apply Hord |].
      eapply before_trans; [done | apply IH | by apply Hord]. }
    by apply (before_irrefl k fl Hnd), Hb.
  - apply toposort_flatten_raise in Hfl as (rest & -> & _). by eexists.
Qed.
End toposort_flatten_facts.

(** A graph whose edges go down a rank has no cycle. *)
Lemma acyclic_ranked (rank : string → nat) (g : graph) :
  map_Forall (λ k deps, set_Forall (λ d, rank d < rank k)%nat deps) g → acyclic g.
Proof.
  intros Hrank k Hk.
  assert (∀ x y, tc (edge g) x y → (rank y < rank x)%nat) as Hdown.
  { induction 1 as [x y (deps & Hx & Hy) | x y z (deps & Hx & Hy) _ IH].
    - by apply (Hrank x deps Hx y).
    - pose proof (Hrank x deps Hx y Hy) as Hxy. simpl in Hxy. lia. }
  specialize (Hdown k k Hk). lia.
Qed.

Lemma abc_acyclic : acyclic Scenario.abc_graph.
Proof.
  apply (acyclic_ranked Scenario.abc_rank).
  apply (bool_decide_unpack _). by vm_compute.
Qed.

(** ** The graph that [sort_dependencies] builds *)

Section graph_facts.
Context (dj : django).
Implicit Types (deps : graph) (k d : string) (c m : model).

Lemma edge_empty k d : ¬ edge ∅ k d.
Proof. intros (deps & Hk & _). by rewrite lookup_empty in Hk. Qed.

Lemma edge_add_dependency class_string name deps k d :
  edge (add_dependency class_string name deps) k d ↔
  edge deps k d ∨ (k = class_string ∧ d = name).
Proof.
  unfold edge, add_dependency. destruct (decide (k = class_string)) as [-> | Hne].
  - setoid_rewrite lookup_insert_eq. split.
    + intros (? & [= <-] & [Hd | ->%elem_of_singleton]%elem_of_union); [| by right].
      left. destruct (deps !! class_string) as [old |]; [eauto | set_solver].
    + intros [(old & Hold & Hd) | [_ ->]]; eexists; (split; [done |]).
      * rewrite Hold. set_solver.
      * set_solver.
  - setoid_rewrite lookup_insert_ne; [| done]. naive_solver.
Qed.

Lemma add_dependencies_edges class_string declared : ∀ deps deps',
  add_dependencies dj class_string declared deps = Ok deps' →
  ∀ k d, edge deps' k d ↔
    edge deps k d ∨
    (k = class_string ∧ ∃ dependency m, dependency ∈ declared ∧
       get_model dj dependency.1 dependency.2 = Ok m ∧ d = name_of dj m).
Proof.
  induction declared as [| dependency declared IH]; intros deps deps'; simpl.
  - intros [= <-] k d. split; [by left |]. intros [? | (_ & ? & ? & ? & _)]; [done | set_solver].
  - destruct (get_model dj dependency.1 dependency.2) as [m | e] eqn:Hm;
      [| by destruct e].
    intros Hrec k d. rewrite (IH _ _ Hrec), edge_add_dependency. split.
    + intros [[? | [-> ->]] | (-> & dep & m' & Hin & Hm' & ->)]; [by left | right..].
      * split; [done |]. exists dependency, m. split_and!; [set_solver | done | done].
      * split; [done |]. exists dep, m'. split_and!; [set_solver | done | done].
    + intros [? | (-> & dep & m' & [-> | Hin]%elem_of_cons & Hm' & ->)]; [by left; left | |].
      * left. right. rewrite Hm in Hm'. by simplify_eq.
      * right. split; [done |]. by exists dep, m'.
Qed.

Lemma add_dependencies_found class_string declared : ∀ deps deps',
  add_dependencies dj class_string declared deps = Ok deps' →
  ∀ dependency, dependency ∈ declared →
    ∃ m, get_model dj dependency.1 dependency.2 = Ok m.
Proof.
  induction declared as [| dep declared IH]; intros deps deps'; simpl; [set_solver |].
  destruct (get_model dj dep.1 dep.2) as [m | e] eqn:Hm; [| by destruct e].
  intros Hrec dependency [-> | Hin]%elem_of_cons; [eauto |]. by eapply IH.
Qed.

Lemma collect_dependencies_edges apps classes : ∀ deps deps',
  collect_dependencies dj apps classes deps = Ok deps' →
  ∀ k d, edge deps' k d ↔
    edge deps k d ∨
    ∃ c m, c ∈ classes ∧ skipped_by_scope apps c = false ∧ abstract c = false ∧
      declares dj c m ∧ k = name_of dj c ∧ d = name_of dj m.
Proof.
  induction classes as [| c classes IH]; intros deps deps'; simpl.
  - intros [= <-] k d. split; [by left |]. intros [? | (? & ? & ? & _)]; [done | set_solver].
  - destruct (skipped_by_scope apps c) eqn:Hskip; [| destruct (abstract c) eqn:Habs].
    1,2: intros Hrec k d; rewrite (IH _ _ Hrec); split;
      (intros [? | (c' & m & Hin & Hs & Ha & Hdecl & Hk & Hd)]; [by left | right]);
      exists c', m; (split_and!; [| done..]);
      [by apply elem_of_cons; right
      | by apply elem_of_cons in Hin as [-> | Hin]; [congruence |]..].
    destruct (add_dependencies dj _ _ deps) as [deps1 |] eqn:Hadd; [| done].
    simpl. intros Hrec k d.
    rewrite (IH _ _ Hrec), (add_dependencies_edges _ _ _ _ Hadd). split.
    + intros [[? | (-> & dep & m & Hin & Hm & ->)] | (c' & m & Hin & Hrest)];
        [by left | right..].
      * exists c, m. split_and!; [set_solver | done | done | by exists dep | done | done].
      * exists c', m. split; [set_solver | done].
    + intros [? | (c' & m & [-> | Hin]%elem_of_cons & Hs & Ha & (dep & Hd & Hm) & -> & ->)];
        [by left; left | |].
      * left. right. split; [done |]. by exists dep, m.
      * right. exists c', m. split_and!; [done | done | done | by exists dep | done | done].
Qed.

Lemma collect_dependencies_found apps classes : ∀ deps deps',
  collect_dependencies dj apps classes deps = Ok deps' →
  ∀ c dependency, c ∈ classes → skipped_by_scope apps c = false → abstract c = false →
    dependency ∈ dependencies c → ∃ m, get_model dj dependency.1 dependency.2 = Ok m.
Proof.
  induction classes as [| c0 classes IH]; intros deps deps'; simpl; [set_solver |].
  destruct (skipped_by_scope apps c0) eqn:Hskip; [| destruct (abstract c0) eqn:Habs].
  1,2: intros Hrec c dep [-> | Hin]%elem_of_cons Hs Ha Hd; [congruence | by eapply IH].
  destruct (add_dependencies dj _ _ deps) as [deps1 |] eqn:Hadd; [| done].
  simpl. intros Hrec c dep [-> | Hin]%elem_of_cons Hs Ha Hd.
  - by eapply add_dependencies_found.
  - by eapply IH.
Qed.

(** The edges of the graph are the declared dependencies of the classes
    in scope, under their default table names. *)
Lemma dependency_graph_edges apps g :
  dependency_graph dj apps = Ok g →
  ∀ k d, edge g k d ↔
    ∃ c m, scheduled_class dj apps c ∧ declares dj c m ∧
      k = name_of dj c ∧ d = name_of dj m.
Proof.
  intros Hg k d. rewrite (collect_dependencies_edges _ _ _ _ Hg). split.
  - intros [[]%edge_empty | (c & m & ? & ? & ? & ? & ? & ?)]. by exists c, m.
  - intros (c & m & (? & ? & ?) & ? & ? & ?). right. by exists c, m.
Qed.

Lemma dependency_graph_found apps g c dependency :
  dependency_graph dj apps = Ok g → scheduled_class dj apps c →
  dependency ∈ dependencies c → ∃ m, declares dj c m ∧
    get_model dj dependency.1 dependency.2 = Ok m.
Proof.
  intros Hg (Hin & Hs & Ha) Hd.
  destruct (collect_dependencies_found _ _ _ _ Hg c dependency) as [m Hm]; [done..|].
  exists m. split; [by exists dependency | done].
Qed.

(** The second loop keeps the order of the names. *)
Lemma models_of_names_app l1 : ∀ l2 ms,
  models_of_names dj (l1 ++ l2) = Ok ms →
  ∃ ms1 ms2, models_of_names dj l1 = Ok ms1 ∧ models_of_names dj l2 = Ok ms2 ∧
    ms = ms1 ++ ms2.
Proof.
  induction l1 as [| name l1 IH]; intros l2 ms; simpl.
  - intros Hms. by exists [], ms.
  - destruct (model_of_name dj name) as [found |]; [simpl | done].
    destruct (models_of_names dj (l1 ++ l2)) as [rest |] eqn:Hrest; [simpl | done].
    intros [= <-]. destruct (IH _ _ Hrest) as (ms1 & ms2 & -> & -> & ->). simpl.
    destruct found; by eexists _, _.
Qed.

Lemma models_of_names_cons name l m ms :
  model_of_name dj name = Ok (Some m) → models_of_names dj (name :: l) = Ok ms →
  ∃ rest, models_of_names dj l = Ok rest ∧ ms = m :: rest.
Proof.
  simpl. intros ->. simpl.
  destruct (models_of_names dj l) as [rest |]; [simpl | done].
  intros [= <-]. by exists rest.
Qed.

Lemma models_of_names_before flattened ms d k md mk :
  models_of_names dj flattened = Ok ms → before d k flattened →
  model_of_name dj d = Ok (Some md) → model_of_name dj k = Ok (Some mk) →
  before md mk ms.
Proof.
  intros Hms (l1 & l2 & l3 & ->) Hd Hk.
  apply models_of_names_app in Hms as (ms1 & ms' & _ & Hms' & ->).
  apply (models_of_names_cons _ _ _ _ Hd) in Hms' as (ms'' & Hms'' & ->).
  apply models_of_names_app in Hms'' as (ms2 & ms''' & _ & Hms''' & ->).
  apply (models_of_names_cons _ _ _ _ Hk) in Hms''' as (ms3 & _ & ->).
  by exists ms1, ms2, ms3.
Qed.
End graph_facts.

(** ** Code that runs against the connection *)

Lemma M_bind_Ok {A B} (c : M A) (k : A → M B) db b db' :
  (c ≫= k) db = (Ok b, db') → ∃ a db1, c db = (Ok a, db1) ∧ k a db1 = (Ok b, db').
Proof.
  unfold mbind, M_bind. destruct (c db) as [[a | e] db1]; [| done]. eauto.
Qed.

Lemma for_each_Forall2 {A B} (f : A → M B) l : ∀ db ys db',
  for_each f l db = (Ok ys, db') →
  Forall2 (λ x y, ∃ db1, (f x db1).1 = Ok y) l ys.
Proof.
  induction l as [| x l IH]; intros db ys db'; simpl.
  - intros [= <- _]. constructor.
  - intros (y & db1 & Hy & (ys' & db2 & Hys & [= <- _])%M_bind_Ok)%M_bind_Ok.
    constructor; [| by eapply IH]. exists db. by rewrite Hy.
Qed.

Lemma for_each_Forall {A B} (f : A → M B) (P : B → Prop) l :
  (∀ x db y, (f x db).1 = Ok y → P y) →
  ∀ db ys db', for_each f l db = (Ok ys, db') → Forall P ys.
Proof.
  intros Hf db ys db' Hys%for_each_Forall2.
  induction Hys as [| x y l ys [db1 Hy] _ IH]; constructor; eauto.
Qed.

(** ** Names and the models found under them *)

Section string_facts.
Implicit Types (s a n : string) (sep c : ascii).

Lemma lower_ascii_idemp c : Str.lower_ascii (Str.lower_ascii c) = Str.lower_ascii c.
Proof. by destruct c as [[] [] [] [] [] [] [] []]. Qed.

Lemma lower_idemp s : Str.lower (Str.lower s) = Str.lower s.
Proof. induction s as [| c s IH]; simpl; [done |]. by rewrite lower_ascii_idemp, IH. Qed.

Lemma lower_app a n : Str.lower (a +:+ n) = Str.lower a +:+ Str.lower n.
Proof. induction a as [| c a IH]; simpl; [done |]. by rewrite IH. Qed.

Lemma split_without sep n : has_char sep n = false → Str.split sep n = [n].
Proof.
  induction n as [| c n IH]; simpl; [done |].
  intros [Hc Hn]%orb_false_elim. rewrite Hc, IH; done.
Qed.

Lemma split_last_piece sep n : has_char sep n = false → ∀ a,
  ∃ pieces, Str.split sep (a +:+ String sep n) = pieces ++ [n] ∧ pieces ≠ [] ∧
    Str.join (String sep EmptyString) pieces = a.
Proof.
  intros Hn. induction a as [| c a (pieces & Hsplit & Hne & Hjoin)]; simpl.
  - rewrite Ascii.eqb_refl, (split_without _ _ Hn). by exists [EmptyString].
  - rewrite Hsplit. destruct (Ascii.eqb c sep) eqn:Hc.
    + apply Ascii.eqb_eq in Hc as ->. exists (EmptyString :: pieces).
      split_and!; [done | done |].
      destruct pieces as [| p pieces]; [done |]. unfold Str.join in *. simpl in *.
      by rewrite Hjoin.
    + destruct pieces as [| p pieces]; [done |]. simpl.
      exists (String c p :: pieces). split_and!; [done | done |].
      unfold Str.join in *. simpl in *. destruct pieces; simpl in *; by rewrite <- Hjoin.
Qed.
End string_facts.

(** A class whose default table name is not truncated, whose model name
    has no underscore, and that is registered under its label and name, is
    the model that the second loop finds under its name. *)
Lemma model_of_name_own dj c app :
  (String.length (app_label c +:+ "_" +:+ model_name c) ≤ max_name_length dj)%nat →
  has_char "_" (Str.lower (model_name c)) = false →
  Str.lower (model_name c) ≠ "viewedmodel" →
  app_configs dj !! Str.lower (app_label c) = Some app →
  app !! Str.lower (model_name c) = Some c →
  model_of_name dj (name_of dj c) = Ok (if has_sql c then Some c else None).
Proof.
  intros Hlen Hus Hvm Happ Hc.
  unfold name_of, model_default_table_name, default_table_name, truncate_name.
  rewrite decide_True by done.
  assert (Str.lower (app_label c +:+ "_" +:+ model_name c) =
          Str.lower (app_label c) +:+ String "_" (Str.lower (model_name c))) as ->
    by (by rewrite lower_app).
  destruct (split_last_piece "_" _ Hus (Str.lower (app_label c)))
    as (pieces & Hsplit & Hne & Hjoin).
  unfold model_of_name.
  unfold model_of_name. rewrite Hsplit.
  unfold Str.last_item, Str.but_last. rewrite last_snoc, removelast_last. simpl.
  rewrite Hjoin.
  assert (Str.lower (app_label c) ≠ "None") as Hnone.
  { intros Heq. pose proof (lower_idemp (app_label c)) as Hidem. by rewrite Heq in Hidem. }
  rewrite (bool_decide_eq_false_2 _ Hnone), (bool_decide_eq_false_2 _ Hvm). simpl.
  unfold get_model. by rewrite !lower_idemp, Happ, Hc.
Qed.

Example abc_resolves_to_itself :
  model_of_name Scenario.abc (name_of Scenario.abc Scenario.B) = Ok (Some Scenario.B).
Proof. by vm_compute. Qed.

Section scope_facts.
Context (dj : django).

Lemma add_dependency_nonempty class_string name (deps : graph) :
  map_Forall (λ _ v, v ≠ ∅) deps →
  map_Forall (λ _ v, v ≠ (∅ : gset string)) (add_dependency class_string name deps).
Proof.
  intros Hdeps. apply map_Forall_insert_2; [set_solver | done].
Qed.

Lemma add_dependencies_nonempty class_string declared : ∀ (deps deps' : graph),
  add_dependencies dj class_string declared deps = Ok deps' →
  map_Forall (λ _ v, v ≠ ∅) deps → map_Forall (λ _ v, v ≠ (∅ : gset string)) deps'.
Proof.
  induction declared as [| dependency declared IH]; intros deps deps'; simpl.
  - by intros [= <-].
  - destruct (get_model dj dependency.1 dependency.2) as [m | e]; [| by destruct e].
    intros Hrec Hdeps. eapply IH; [done |]. by apply add_dependency_nonempty.
Qed.

Lemma collect_dependencies_nonempty apps classes : ∀ (deps deps' : graph),
  collect_dependencies dj apps classes deps = Ok deps' →
  map_Forall (λ _ v, v ≠ ∅) deps → map_Forall (λ _ v, v ≠ (∅ : gset string)) deps'.
Proof.
  induction classes as [| c classes IH]; intros deps deps'; simpl.
  - by intros [= <-].
  - destruct (skipped_by_scope apps c); [apply IH |].
    destruct (abstract c); [apply IH |].
    destruct (add_dependencies dj _ _ deps) as [deps1 |] eqn:Hadd; [simpl | done].
    intros Hrec Hdeps. eapply IH; [done |]. by eapply add_dependencies_nonempty.
Qed.

(** What the scope does bound: a model in the returned list is found under
    the name of a class in scope, or under the name of a dependency that a
    class in scope declares. *)
Lemma sort_dependencies_members apps ordered_models m :
  sort_dependencies dj apps = Ok ordered_models → m ∈ ordered_models →
  ∃ c, scheduled_class dj apps c ∧
    (model_of_name dj (name_of dj c) = Ok (Some m) ∨
     ∃ d, declares dj c d ∧ model_of_name dj (name_of dj d) = Ok (Some m)).
Proof.
  unfold sort_dependencies.
  destruct (dependency_graph dj apps) as [g |] eqn:Hg; [simpl | done].
  destruct (Toposort.toposort_flatten g) as [flattened |] eqn:Hfl; [simpl | done].
  apply toposort_flatten_sound in Hfl as (_ & _ & Hmem).
  assert (∀ l ms, models_of_names dj l = Ok ms → m ∈ ms →
            ∃ name, name ∈ l ∧ model_of_name dj name = Ok (Some m)) as Hfound.
  { induction l as [| name l IH]; intros ms; simpl; [intros [= <-]; set_solver |].
    destruct (model_of_name dj name) as [found |] eqn:Hname; [simpl | done].
    destruct (models_of_names dj l) as [rest |]; [simpl | done].
    intros [= <-] Hin.
    assert (found = Some m ∨ m ∈ rest) as [-> | Hrest].
    { destruct found; [apply elem_of_cons in Hin as [-> | ?] |]; eauto. }
    - exists name. split; [set_solver | done].
    - destruct (IH rest eq_refl Hrest) as (name' & ? & ?). exists name'. set_solver. }
  intros Hms Hin. destruct (Hfound _ _ Hms Hin) as (name & Hname & Hm).
  apply Hmem in Hname as [[deps Hk]%elem_of_dom | (k & Hedge & _)].
  - destruct (set_choose_or_empty deps) as [[d Hd] | Hempty].
    + assert (edge g name d) as Hedge by (by exists deps).
      apply (dependency_graph_edges dj apps g Hg) in Hedge as (c & _ & Hc & _ & -> & _).
      exists c. split; [done | by left].
    + exfalso. apply leibniz_equiv in Hempty. subst deps.
      by apply (collect_dependencies_nonempty _ _ _ _ Hg (map_Forall_empty _) name ∅).
  - apply (dependency_graph_edges dj apps g Hg) in Hedge as (c & d & Hc & Hd & -> & ->).
    exists c. split; [done |]. right. by exists d.
Qed.
End scope_facts.

(** ** The statements of one class *)

Section rendering_facts.
Context `{Json.Codec}.
Implicit Types (cls : model) (kw : kwargs) (db : DB).

Lemma sql_refresh_skip kw cls db :
  update_mv cls db = false → sql_refresh kw cls db = (Ok None, db).
Proof. intros Hgo. unfold sql_refresh, mbind, M_bind. by rewrite Hgo. Qed.

(** With [dryrun] set, [sql_refresh] ends without reaching its [return]. *)
Lemma sql_refresh_dryrun kw cls db :
  dryrun kw = Some true → sql_refresh kw cls db = (Ok None, db).
Proof.
  intros Hdry. unfold sql_refresh, mbind, M_bind. rewrite Hdry.
  by destruct (update_mv cls db).
Qed.

Lemma sql_vacuum_dryrun kw cls db :
  dryrun kw = Some true → sql_vacuum kw cls db = (Ok None, db).
Proof. intros Hdry. unfold sql_vacuum. by rewrite Hdry. Qed.

(** A plain view without [sql] fails the assertion of [sql_create]. *)
Lemma sql_create_unwritten_plain kw cls db :
  base cls ≠ BaseMaterializedViewedModel → own_sql cls = None →
  sql_create kw cls db = (Raise AssertionError, db).
Proof.
  intros Hbase Hsql. unfold sql_create, has_sql. rewrite Hsql.
  rewrite (bool_decide_eq_false_2 (is_Some None)) by (by intros [? ?]).
  by rewrite (bool_decide_eq_false_2 _ Hbase).
Qed.

(** [set_comment] on a comment that is a JSON object: the object is read,
    [last_updated] is set in it, and the result is written back. *)
Lemma set_comment_object cls db text members :
  relations db !! table_name cls = Some (Some text) → text ≠ "" →
  Json.loads text = Ok (Json.Object members) →
  set_comment cls db =
    _set_comment cls
      (Json.dumps (Json.Object (Json.dict_set "last_updated" (Json.Str (now db)) members)))
      db.
Proof.
  intros Hrel Hne Hobj. unfold set_comment, get_comment, mbind, M_bind. rewrite Hrel.
  unfold or_empty_object. rewrite decide_False by done. by rewrite Hobj.
Qed.

Lemma set_comment_legacy cls db text :
  relations db !! table_name cls = Some (Some text) → text ≠ "" →
  Json.loads text = Raise JSONDecodeError →
  set_comment cls db =
    _set_comment cls
      (Json.dumps (Json.Object [("old_content", Json.Str text);
                                ("last_updated", Json.Str (now db))]))
      db.
Proof.
  intros Hrel Hne Hobj. unfold set_comment, get_comment, mbind, M_bind. rewrite Hrel.
  unfold or_empty_object. rewrite decide_False by done. by rewrite Hobj.
Qed.
End rendering_facts.

Lemma dict_get_set key v members : Json.dict_get key (Json.dict_set key v members) = Some v.
Proof.
  induction members as [| [k old] members IH]; simpl.
  - by rewrite decide_True.
  - destruct (decide (k = key)) as [-> | Hne]; simpl.
    + by rewrite decide_True.
    + by rewrite decide_False.
Qed.

Lemma dict_get_set_other key k v members :
  k ≠ key → Json.dict_get k (Json.dict_set key v members) = Json.dict_get k members.
Proof.
  intros Hne. induction members as [| [k' old] members IH]; simpl.
  - by rewrite decide_False.
  - destruct (decide (k' = key)) as [-> | Hne']; simpl.
    + by rewrite !decide_False.
    + destruct (decide (k' = k)); [done | apply IH].
Qed.

(** ** The engine on a comment statement *)

Section engine_facts.
Implicit Types (p s text rest name : string).

Lemma strip_prefix_app p s : Engine.strip_prefix p (p +:+ s) = Some s.
Proof. induction p as [| c p IH]; simpl; [done |]. by rewrite Ascii.eqb_refl. Qed.

Lemma word_app name rest :
  has_char " " name = false → Engine.word (name +:+ String " " rest) = (name, rest).
Proof.
  induction name as [| c name IH]; simpl; [done |].
  intros [Hc Hname]%orb_false_elim. by rewrite Hc, IH.
Qed.

(** A text without a quote is the constant that it spells. *)
Lemma literal_plain text :
  has_char "'" text = false → Engine.literal (text +:+ "'") = Some (text, EmptyString).
Proof.
  induction text as [| c text IH]; simpl; [done |].
  intros [Hc Htext]%orb_false_elim. by rewrite Hc, IH.
Qed.

Lemma comment_on_plain name text relations old :
  has_char " " name = false → has_char "'" text = false →
  relations !! name = Some old →
  Engine.comment_on (name +:+ " IS '" +:+ text +:+ "'") relations =
    Some (<[name := if decide (text = EmptyString) then None else Some text]> relations).
Proof.
  intros Hname Htext Hrel. unfold Engine.comment_on.
  change (name +:+ " IS '" +:+ text +:+ "'")
    with (name +:+ String " " ("IS '" +:+ (text +:+ "'"))).
  rewrite (word_app _ _ Hname), strip_prefix_app. simpl.
  rewrite (literal_plain _ Htext). simpl. rewrite Hrel. simpl.
  done.
Qed.

(** [_set_comment] with a text that has no quote, on a relation that
    exists and whose name is one word, when the engine takes the statement:
    the text becomes the comment. *)
Lemma _set_comment_plain cls text db old :
  let sql := "COMMENT ON MATERIALIZED VIEW " +:+ table_name cls +:+ " IS '" +:+ text +:+ "'" in
  has_char " " (table_name cls) = false → has_char "'" text = false →
  relations db !! table_name cls = Some old → rejects db sql = false →
  _set_comment cls text db =
    (Ok (),
     mkDB (<[table_name cls := if decide (text = EmptyString) then None else Some text]>
             (relations db))
          (executed db ++ [(sql, None)]) (now db) (rejects db)).
Proof.
  intros sql Hname Htext Hrel Hrej. unfold _set_comment, Engine.execute.
  fold sql. rewrite Hrej. unfold sql at 1.
  rewrite strip_prefix_app, (comment_on_plain _ _ _ _ Hname Htext Hrel). done.
Qed.
End engine_facts.

(** The claim C5 on the comments that it does hold for.  The comment is a
    JSON object; the serialization of the object with [last_updated] set
    has no quote (and is not empty); the relation's name is one word and
    the engine takes the statement.  Then [set_comment] followed by
    [get_comment] returns that serialization: the object with
    [last_updated] set to the time of the database and every other key as
    it was ([dict_get_set], [dict_get_set_other]). *)
Lemma set_comment_then_get_comment `{Json.Codec} cls db text members :
  let merged := Json.Object (Json.dict_set "last_updated" (Json.Str (now db)) members) in
  let sql := "COMMENT ON MATERIALIZED VIEW " +:+ table_name cls +:+ " IS '"
             +:+ Json.dumps merged +:+ "'" in
  relations db !! table_name cls = Some (Some text) → text ≠ EmptyString →
  Json.loads text = Ok (Json.Object members) →
  has_char "'" (Json.dumps merged) = false → Json.dumps merged ≠ EmptyString →
  has_char " " (table_name cls) = false → rejects db sql = false →
  ((_ ← set_comment cls; get_comment cls) db).1 = Ok (Some (Json.dumps merged)).
Proof.
  intros merged sql Hrel Hne Hobj Hquote Hdumps Hname Hrej.
  unfold mbind at 1, M_bind at 1.
  rewrite (set_comment_object cls db text members Hrel Hne Hobj).
  fold merged. rewrite (_set_comment_plain cls _ db _ Hname Hquote Hrel Hrej).
  unfold get_comment. simpl. rewrite lookup_insert_eq. by rewrite decide_False.
Qed.

Example plain_comment_round_trip :
  ((_ ← set_comment (H := JsonText.codec) Scenario.totals; get_comment Scenario.totals)
     (Scenario.database (Some Scenario.plain_comment))).1 =
  Ok (Some (JsonText.print
              (Json.Object [("owner", Json.Str "ops"); ("rows", Json.Int 12);
                            ("last_updated", Json.Str "2024-01-01 00:00:00+00")]))).
Proof. by vm_compute. Qed.

(** * The claims *)

(** C1.  When the graph built from the registered definitions has no
    cycle, [toposort_flatten] returns a sequence in which the identifier of
    every declared dependency comes before the identifier of the definition
    that declares it, and the list that [sort_dependencies] returns keeps
    that order: the model found for the dependency comes before the model
    found for the definition. *)
Theorem sort_dependencies_respects_dependencies dj apps g :
  dependency_graph dj apps = Ok g → acyclic g →
  ∃ flattened,
    Toposort.toposort_flatten g = Ok flattened ∧
    sort_dependencies dj apps = models_of_names dj flattened ∧
    ∀ c m, scheduled_class dj apps c → declares dj c m →
      before (name_of dj m) (name_of dj c) flattened ∧
      ∀ ordered_models mc mm,
        sort_dependencies dj apps = Ok ordered_models →
        model_of_name dj (name_of dj c) = Ok (Some mc) →
        model_of_name dj (name_of dj m) = Ok (Some mm) →
        before mm mc ordered_models.
Proof.
  intros Hg Hac. destruct (toposort_flatten_total g Hac) as [flattened Hfl].
  exists flattened. split; [done |].
  assert (sort_dependencies dj apps = models_of_names dj flattened) as Hsort.
  { unfold sort_dependencies. rewrite Hg. simpl. by rewrite Hfl. }
  split; [done |]. intros c m Hc Hm.
  assert (edge g (name_of dj c) (name_of dj m)) as Hedge.
  { apply (dependency_graph_edges dj apps g Hg). by exists c, m. }
  assert (name_of dj m ≠ name_of dj c) as Hne.
  { intros Heq. apply (Hac (name_of dj c)), tc_once. by rewrite <- Heq at 2. }
  apply toposort_flatten_sound in Hfl as (_ & Hord & _).
  split; [by apply Hord |]. intros ordered_models mc mm Hms Hmc Hmm.
  rewrite Hsort in Hms. eapply models_of_names_before; eauto.
Qed.

Lemma sort_dependencies_respects_dependencies_witness :
  dependency_graph Scenario.abc "all" = Ok Scenario.abc_graph ∧
  acyclic Scenario.abc_graph ∧
  ∃ flattened,
    Toposort.toposort_flatten Scenario.abc_graph = Ok flattened ∧
    sort_dependencies Scenario.abc "all" = models_of_names Scenario.abc flattened ∧
    ∀ c m, scheduled_class Scenario.abc "all" c → declares Scenario.abc c m →
      before (name_of Scenario.abc m) (name_of Scenario.abc c) flattened ∧
      ∀ ordered_models mc mm,
        sort_dependencies Scenario.abc "all" = Ok ordered_models →
        model_of_name Scenario.abc (name_of Scenario.abc c) = Ok (Some mc) →
        model_of_name Scenario.abc (name_of Scenario.abc m) = Ok (Some mm) →
        before mm mc ordered_models.
Proof.
  assert (dependency_graph Scenario.abc "all" = Ok Scenario.abc_graph) as Hg
    by (vm_compute; reflexivity).
  split; [exact Hg |]. split; [exact abc_acyclic |].
  exact (sort_dependencies_respects_dependencies Scenario.abc "all" Scenario.abc_graph
           Hg abc_acyclic).
Defined.

Example abc_order :
  sort_dependencies Scenario.abc "all" = Ok [Scenario.A; Scenario.B; Scenario.C].
Proof. vm_compute. reflexivity. Qed.

(** C2, as the code has it.  When the graph has a cycle through two or more
    identifiers, [sort_dependencies] raises [CircularDependencyError] and
    returns no list; the exception carries the items that are left, and
    each of them still waits for another one. *)
Theorem sort_dependencies_cycle dj apps g k :
  dependency_graph dj apps = Ok g → tc (edge_to_other g) k k →
  ∃ rest, sort_dependencies dj apps = Raise (CircularDependencyError rest) ∧
    rest ≠ ∅ ∧ Toposort.ready rest = ∅.
Proof.
  intros Hg Hcyc. unfold sort_dependencies. rewrite Hg. simpl.
  destruct (toposort_flatten_cycle g k Hcyc) as [rest Hrest].
  destruct (toposort_flatten_raise g _ Hrest) as (rest' & [= <-] & Hne & Hready).
  exists rest. by rewrite Hrest.
Qed.

Lemma sort_dependencies_cycle_witness :
  dependency_graph Scenario.xy "all" = Ok Scenario.xy_graph ∧
  tc (edge_to_other Scenario.xy_graph) "loop_x" "loop_x" ∧
  ∃ rest, sort_dependencies Scenario.xy "all" = Raise (CircularDependencyError rest) ∧
    rest ≠ ∅ ∧ Toposort.ready rest = ∅.
Proof.
  assert (dependency_graph Scenario.xy "all" = Ok Scenario.xy_graph) as Hg
    by (vm_compute; reflexivity).
  assert (tc (edge_to_other Scenario.xy_graph) "loop_x" "loop_x") as Hcyc.
  { apply tc_l with "loop_y"; [| apply tc_once]; (split; [| done]).
    - exists {[ "loop_y" ]}. split; [by vm_compute | set_solver].
    - exists {[ "loop_x" ]}. split; [by vm_compute | set_solver]. }
  split; [exact Hg |]. split; [exact Hcyc |].
  exact (sort_dependencies_cycle Scenario.xy "all" Scenario.xy_graph "loop_x" Hg Hcyc).
Defined.

(** C2 as stated fails on a definition that depends on itself: the graph
    has the cycle of that definition, and [sort_dependencies] returns a
    list, because [toposort] ignores self dependencies. *)
Lemma sort_dependencies_self_dependency :
  dependency_graph Scenario.own "all" = Ok Scenario.own_graph ∧
  has_cycle Scenario.own_graph ∧
  sort_dependencies Scenario.own "all" = Ok [Scenario.Own].
Proof.
  split_and!; [by vm_compute | | by vm_compute].
  exists "loop_own". apply tc_once. exists {[ "loop_own" ]}.
  split; [by vm_compute | set_solver].
Qed.

(** C3.  The entities behind the statements of [drop_all_statements] are
    those behind the statements of [create_all_statements] in reverse
    order; and in that reverse order a definition comes before each of the
    dependencies it declares. *)
Theorem drop_order_reverses_create_order dj apps dryrun_c dryrun_d db_c db_d
    creates drops db_c' db_d' :
  create_all_statements dj dryrun_c apps db_c = (Ok creates, db_c') →
  drop_all_statements dj dryrun_d apps db_d = (Ok drops, db_d') →
  ∃ entities,
    sort_dependencies dj apps = Ok entities ∧
    Forall2 create_of entities creates ∧
    Forall2 drop_of (reverse entities) drops ∧
    ∀ c m mc mm, scheduled_class dj apps c → declares dj c m →
      name_of dj m ≠ name_of dj c →
      model_of_name dj (name_of dj c) = Ok (Some mc) →
      model_of_name dj (name_of dj m) = Ok (Some mm) →
      before mc mm (reverse entities).
Proof.
  unfold create_all_statements, drop_all_statements, ordered_models.
  intros (entities & db1 & Hsort & Hc)%M_bind_Ok (entities' & db2 & Hsort' & Hd)%M_bind_Ok.
  destruct (sort_dependencies dj apps) as [ms |] eqn:Hms; [| done].
  injection Hsort as <- <-. injection Hsort' as <- <-. exists ms. split; [done |].
  apply for_each_Forall2 in Hc, Hd. split_and!.
  - eapply Forall2_impl; [exact Hc |]. intros cls s [db Hs].
    unfold ViewedModel_method in Hs. case_decide; [done |]. by eexists _, _.
  - eapply Forall2_impl; [exact Hd |]. intros cls s [db Hs].
    unfold ViewedModel_method in Hs. case_decide; [done |]. by eexists _, _.
  - intros c m mc mm Hcls Hdecl Hne Hmc Hmm. apply before_reverse.
    unfold sort_dependencies in Hms.
    destruct (dependency_graph dj apps) as [g |] eqn:Hg; [simpl in Hms | done].
    destruct (Toposort.toposort_flatten g) as [flattened |] eqn:Hfl; [simpl in Hms | done].
    apply toposort_flatten_sound in Hfl as (_ & Hord & _).
    eapply models_of_names_before; [done | | done | done].
    apply Hord; [| done]. apply (dependency_graph_edges dj apps g Hg). by exists c, m.
Qed.

Lemma drop_order_reverses_create_order_witness :
  let db := Scenario.database None in
  let creates :=
    [[PyStr ("CREATE VIEW " +:+ dquote +:+ "shop_a" +:+ dquote +:+ " AS (SELECT * FROM source_of_a)"); PyParams None];
     [PyStr ("CREATE VIEW " +:+ dquote +:+ "shop_b" +:+ dquote +:+ " AS (SELECT * FROM source_of_b)"); PyParams None];
     [PyStr ("CREATE VIEW " +:+ dquote +:+ "shop_c" +:+ dquote +:+ " AS (SELECT * FROM source_of_c)"); PyParams None]] in
  let drops :=
    [[PyStr ("DROP VIEW IF EXISTS " +:+ dquote +:+ "shop_c" +:+ dquote +:+ " ;"); PyParams None];
     [PyStr ("DROP VIEW IF EXISTS " +:+ dquote +:+ "shop_b" +:+ dquote +:+ " ;"); PyParams None];
     [PyStr ("DROP VIEW IF EXISTS " +:+ dquote +:+ "shop_a" +:+ dquote +:+ " ;"); PyParams None]] in
  create_all_statements Scenario.abc true "all" db = (Ok creates, db) ∧
  drop_all_statements Scenario.abc true "all" db = (Ok drops, db) ∧
  ∃ entities,
    sort_dependencies Scenario.abc "all" = Ok entities ∧
    Forall2 create_of entities creates ∧
    Forall2 drop_of (reverse entities) drops ∧
    ∀ c m mc mm, scheduled_class Scenario.abc "all" c → declares Scenario.abc c m →
      name_of Scenario.abc m ≠ name_of Scenario.abc c →
      model_of_name Scenario.abc (name_of Scenario.abc c) = Ok (Some mc) →
      model_of_name Scenario.abc (name_of Scenario.abc m) = Ok (Some mm) →
      before mc mm (reverse entities).
Proof.
  intros db creates drops.
  assert (create_all_statements Scenario.abc true "all" db = (Ok creates, db)) as Hc
    by (vm_compute; reflexivity).
  assert (drop_all_statements Scenario.abc true "all" db = (Ok drops, db)) as Hd
    by (vm_compute; reflexivity).
  split; [exact Hc |]. split; [exact Hd |].
  exact (drop_order_reverses_create_order Scenario.abc "all" true true db db
           creates drops db db Hc Hd).
Defined.

(** C4 does not hold of the code.  A dependency that a class in scope
    declares comes back from [sort_dependencies] whenever the second loop
    finds a model with [sql] under its name, also when the scope skips that
    dependency: the scope is tested in the first loop only. *)
Theorem scope_lets_dependencies_in dj apps ordered_models c m mm :
  sort_dependencies dj apps = Ok ordered_models →
  scheduled_class dj apps c → declares dj c m → skipped_by_scope apps m = true →
  model_of_name dj (name_of dj m) = Ok (Some mm) →
  mm ∈ ordered_models.
Proof.
  intros Hsort Hc Hm _ Hmm. unfold sort_dependencies in Hsort.
  destruct (dependency_graph dj apps) as [g |] eqn:Hg; [simpl in Hsort | done].
  destruct (Toposort.toposort_flatten g) as [flattened |] eqn:Hfl; [simpl in Hsort | done].
  apply toposort_flatten_sound in Hfl as (_ & _ & Hmem).
  assert (edge g (name_of dj c) (name_of dj m)) as Hedge.
  { apply (dependency_graph_edges dj apps g Hg). by exists c, m. }
  assert (name_of dj m ∈ flattened) as Hin.
  { apply Hmem. destruct (decide (name_of dj m = name_of dj c)) as [Heq | Hne].
    - left. rewrite Heq. destruct Hedge as (deps & Hk & _). apply elem_of_dom. eauto.
    - right. by exists (name_of dj c). }
  apply list_elem_of_split in Hin as (l1 & l2 & ->).
  apply models_of_names_app in Hsort as (ms1 & ms2 & _ & Hms2 & ->).
  apply (models_of_names_cons _ _ _ _ _ Hmm) in Hms2 as (rest & _ & ->).
  set_solver.
Qed.

Lemma scope_lets_dependencies_in_witness :
  sort_dependencies Scenario.two_apps "ns1" = Ok [Scenario.base_view; Scenario.report] ∧
  scheduled_class Scenario.two_apps "ns1" Scenario.report ∧
  declares Scenario.two_apps Scenario.report Scenario.base_view ∧
  skipped_by_scope "ns1" Scenario.base_view = true ∧
  model_of_name Scenario.two_apps (name_of Scenario.two_apps Scenario.base_view) =
    Ok (Some Scenario.base_view) ∧
  Scenario.base_view ∈ [Scenario.base_view; Scenario.report].
Proof.
  assert (sort_dependencies Scenario.two_apps "ns1" =
          Ok [Scenario.base_view; Scenario.report]) as Hsort by (vm_compute; reflexivity).
  assert (scheduled_class Scenario.two_apps "ns1" Scenario.report) as Hc.
  { split_and!; [| by vm_compute..].
    change (Scenario.report ∈
            [Scenario.MaterializedViewedModel_class; Scenario.base_view; Scenario.report]).
    do 2 apply list_elem_of_further. apply list_elem_of_here. }
  assert (declares Scenario.two_apps Scenario.report Scenario.base_view) as Hm.
  { exists ("ns2", "Base"). split; [apply list_elem_of_here | by vm_compute]. }
  assert (skipped_by_scope "ns1" Scenario.base_view = true) as Hskip
    by (vm_compute; reflexivity).
  assert (model_of_name Scenario.two_apps (name_of Scenario.two_apps Scenario.base_view) =
          Ok (Some Scenario.base_view)) as Hmm by (vm_compute; reflexivity).
  split; [exact Hsort |]. split; [exact Hc |]. split; [exact Hm |].
  split; [exact Hskip |]. split; [exact Hmm |].
  exact (scope_lets_dependencies_in Scenario.two_apps "ns1" _ Scenario.report
           Scenario.base_view Scenario.base_view Hsort Hc Hm Hskip Hmm).
Defined.

(** The create plan of that scenario: the first statement creates the view
    of [ns2]. *)
Example scoped_create_plan :
  (create_all_statements Scenario.two_apps true "ns1" (Scenario.database None)).1 =
    Ok [[PyStr ("CREATE VIEW " +:+ dquote +:+ "ns2_base" +:+ dquote
                +:+ " AS (SELECT * FROM source_of_base)"); PyParams None];
        [PyStr ("CREATE VIEW " +:+ dquote +:+ "ns1_report" +:+ dquote
                +:+ " AS (SELECT * FROM source_of_report)"); PyParams None]].
Proof. by vm_compute. Qed.

(** C5 does not hold of the code.  The comment is the JSON object with
    the one key [owner] and the value [O'Brien]: the quote ends the string
    constant of the [COMMENT] statement, the engine refuses it, and the
    comment read afterwards is the old one, without [last_updated].  With
    two quotes in a row in a value the statement runs, and the value comes
    back with one quote. *)
Theorem set_comment_breaks_on_quote :
  let db := Scenario.database (Some Scenario.quoted_comment) in
  let doubled := JsonText.print (Json.Object [("note", Json.Str "a''b")]) in
  JsonText.read Scenario.quoted_comment = Ok (Json.Object [("owner", Json.Str "O'Brien")]) ∧
  set_comment (H := JsonText.codec) Scenario.totals db = (Raise ProgrammingError, db) ∧
  get_comment Scenario.totals db = (Ok (Some Scenario.quoted_comment), db) ∧
  ((_ ← set_comment (H := JsonText.codec) Scenario.totals; get_comment Scenario.totals)
     (Scenario.database (Some doubled))).1
  = Ok (Some (JsonText.print
                (Json.Object [("note", Json.Str "a'b");
                              ("last_updated", Json.Str "2024-01-01 00:00:00+00")]))).
Proof. intros db doubled. split_and!; by vm_compute. Qed.

(** C6 as stated fails: on the comment [hello], which is not JSON,
    [get_comment] returns the text [hello] itself, not the object that
    wraps it (nor its serialization). *)
Lemma get_comment_returns_raw_text :
  let db := Scenario.database (Some Scenario.legacy_comment) in
  JsonText.read Scenario.legacy_comment = Raise JSONDecodeError ∧
  get_comment Scenario.totals db = (Ok (Some "hello"), db) ∧
  "hello" ≠ JsonText.print (Json.Object [("old_content", Json.Str "hello")]).
Proof. intros db. split_and!; by vm_compute. Qed.

(** C6, as the code has it.  On a comment that is not JSON, [get_comment]
    returns the raw text; the wrapping is done by [set_comment], which
    keeps the text under [old_content], adds [last_updated] with the time
    of the database, and writes the serialized object as the new comment. *)
Theorem legacy_comment_wrapped_on_write `{Json.Codec} cls db text :
  relations db !! table_name cls = Some (Some text) → text ≠ "" →
  Json.loads text = Raise JSONDecodeError →
  get_comment cls db = (Ok (Some text), db) ∧
  set_comment cls db =
    _set_comment cls
      (Json.dumps (Json.Object [("old_content", Json.Str text);
                                ("last_updated", Json.Str (now db))]))
      db.
Proof.
  intros Hrel Hne Hbad. split; [| by apply set_comment_legacy].
  unfold get_comment. by rewrite Hrel.
Qed.

Lemma legacy_comment_wrapped_on_write_witness :
  let db := Scenario.database (Some Scenario.legacy_comment) in
  relations db !! table_name Scenario.totals = Some (Some "hello") ∧
  "hello" ≠ "" ∧
  Json.loads (Codec := JsonText.codec) "hello" = Raise JSONDecodeError ∧
  get_comment Scenario.totals db = (Ok (Some "hello"), db) ∧
  set_comment (H := JsonText.codec) Scenario.totals db =
    _set_comment Scenario.totals
      (Json.dumps (Codec := JsonText.codec)
         (Json.Object [("old_content", Json.Str "hello");
                       ("last_updated", Json.Str (now db))]))
      db.
Proof.
  intros db.
  assert (relations db !! table_name Scenario.totals = Some (Some "hello")) as Hrel
    by (vm_compute; reflexivity).
  assert ("hello" ≠ "") as Hne by discriminate.
  assert (Json.loads (Codec := JsonText.codec) "hello" = Raise JSONDecodeError) as Hbad
    by (vm_compute; reflexivity).
  split; [exact Hrel |]. split; [exact Hne |]. split; [exact Hbad |].
  exact (legacy_comment_wrapped_on_write (H := JsonText.codec) Scenario.totals db "hello"
           Hrel Hne Hbad).
Defined.

Example legacy_comment_after_write :
  (_ ← set_comment (H := JsonText.codec) Scenario.totals; get_comment Scenario.totals)
    (Scenario.database (Some "hello")) =
  (Ok (Some (JsonText.print (Json.Object [("old_content", Json.Str "hello");
               ("last_updated", Json.Str "2024-01-01 00:00:00+00")]))),
   mkDB (<["shop_totals" := Some (JsonText.print (Json.Object [("old_content", Json.Str "hello");
               ("last_updated", Json.Str "2024-01-01 00:00:00+00")]))]>
           (relations (Scenario.database (Some "hello"))))
        [("COMMENT ON MATERIALIZED VIEW shop_totals IS '"
            +:+ JsonText.print (Json.Object [("old_content", Json.Str "hello");
               ("last_updated", Json.Str "2024-01-01 00:00:00+00")]) +:+ "'", None)]
        "2024-01-01 00:00:00+00" (rejects (Scenario.database (Some "hello")))).
Proof. vm_compute. reflexivity. Qed.

(** C7.  When [update_mv] says no, [sql_refresh] returns [None] without an
    exception and leaves the database as it was (nothing is run and the
    comment stays); in the loop of [refresh_mv] the entry of that class is
    [None] and the loop goes on with the classes after it. *)
Theorem refresh_skipped_by_policy `{Json.Codec} kw cls db :
  update_mv cls db = false →
  sql_refresh kw cls db = (Ok None, db) ∧
  ∀ rest, for_each (sql_refresh kw) (cls :: rest) db =
    (refreshed ← for_each (sql_refresh kw) rest; mret (None :: refreshed)) db.
Proof.
  intros Hgo. pose proof (sql_refresh_skip kw cls db Hgo) as Hskip.
  split; [done |]. intros rest. simpl. unfold mbind at 1, M_bind at 1. by rewrite Hskip.
Qed.

Lemma refresh_skipped_by_policy_witness :
  let db := Scenario.database (Some Scenario.plain_comment) in
  update_mv Scenario.paused db = false ∧
  sql_refresh (H := JsonText.codec) Scenario.no_kwargs Scenario.paused db = (Ok None, db) ∧
  ∀ rest,
    for_each (sql_refresh (H := JsonText.codec) Scenario.no_kwargs) (Scenario.paused :: rest) db =
    (refreshed ← for_each (sql_refresh (H := JsonText.codec) Scenario.no_kwargs) rest;
     mret (None :: refreshed)) db.
Proof.
  intros db. split; [reflexivity |].
  exact (refresh_skipped_by_policy (H := JsonText.codec) Scenario.no_kwargs Scenario.paused db
           eq_refl).
Defined.

(** C8 does not hold of the code.  For a materialized view that never
    wrote [sql], [sql_create] raises nothing: the inherited [sql] returns
    [None], and the statement is rendered with the body [None].  (The
    plain view without [sql] does fail, on the assertion:
    [sql_create_unwritten_plain].) *)
Theorem unwritten_materialized_body_renders kw cls db :
  base cls = BaseMaterializedViewedModel → own_sql cls = None →
  dryrun kw = Some true →
  sql_create kw cls db =
    (Ok [PyStr ("CREATE MATERIALIZED VIEW " +:+ dquote +:+ table_name cls +:+ dquote
                +:+ " AS (None)"); PyParams (params cls)], db).
Proof.
  intros Hbase Hsql Hdry.
  unfold sql_create, has_sql, sql, view_type, materialized. rewrite Hsql, Hdry.
  by rewrite (bool_decide_eq_true_2 _ Hbase).
Qed.

Lemma unwritten_materialized_body_renders_witness :
  let db := Scenario.database None in
  base Scenario.unwritten = BaseMaterializedViewedModel ∧
  own_sql Scenario.unwritten = None ∧
  dryrun Scenario.render_only = Some true ∧
  sql_create Scenario.render_only Scenario.unwritten db =
    (Ok [PyStr ("CREATE MATERIALIZED VIEW " +:+ dquote +:+ table_name Scenario.unwritten
                +:+ dquote +:+ " AS (None)"); PyParams (params Scenario.unwritten)], db).
Proof.
  intros db. split; [reflexivity |]. split; [reflexivity |]. split; [reflexivity |].
  exact (unwritten_materialized_body_renders Scenario.render_only Scenario.unwritten db
           eq_refl eq_refl eq_refl).
Defined.

Example unwritten_plain_fails :
  sql_create Scenario.render_only Scenario.unwritten_plain (Scenario.database None) =
    (Raise AssertionError, Scenario.database None).
Proof. by vm_compute. Qed.

(** C9 does not hold of the code.  When [update_mv] says yes and [dryrun]
    is set, [sql_refresh] runs nothing and returns [None], not the
    statement: its [return] is under [if not dryrun]. *)
Theorem refresh_dryrun_returns_nothing `{Json.Codec} kw cls db :
  update_mv cls db = true → dryrun kw = Some true →
  sql_refresh kw cls db = (Ok None, db).
Proof. intros _. apply sql_refresh_dryrun. Qed.

Lemma refresh_dryrun_returns_nothing_witness :
  let db := Scenario.database (Some Scenario.plain_comment) in
  update_mv Scenario.totals db = true ∧
  dryrun Scenario.render_only = Some true ∧
  sql_refresh (H := JsonText.codec) Scenario.render_only Scenario.totals db = (Ok None, db).
Proof.
  intros db. split; [reflexivity |]. split; [reflexivity |].
  exact (refresh_dryrun_returns_nothing (H := JsonText.codec) Scenario.render_only
           Scenario.totals db eq_refl eq_refl).
Defined.

(** C10.  Every statement that [drop_all_statements] or
    [create_all_statements] returns is a list of two elements, the SQL text
    and the parameters; so the test [len(s) == 0] of [recreate] is false on
    it, and the loop body just runs the statement. *)
Theorem statements_have_two_elements dj apps dryrun db statements db' :
  drop_all_statements dj dryrun apps db = (Ok statements, db') ∨
  create_all_statements dj dryrun apps db = (Ok statements, db') →
  Forall (λ s, ∃ sql params,
            s = [PyStr sql; PyParams params] ∧ length s = 2 ∧
            is_empty_statement s = false ∧
            execute_statement s = Engine.execute sql params) statements.
Proof.
  assert (Hshape : ∀ sql params, let s := [PyStr sql; PyParams params] in
    ∃ sql' params', s = [PyStr sql'; PyParams params'] ∧ length s = 2 ∧
      is_empty_statement s = false ∧ execute_statement s = Engine.execute sql' params').
  { intros sql params. by exists sql, params. }
  unfold create_all_statements, drop_all_statements, ordered_models.
  intros [(ms & db1 & _ & Hs)%M_bind_Ok | (ms & db1 & _ & Hs)%M_bind_Ok];
    (eapply for_each_Forall; [| exact Hs]); intros cls db2 s Hcls;
    unfold ViewedModel_method in Hcls; case_decide; try done.
  - unfold sql_drop in Hcls.
    destruct (negb _); simpl in Hcls.
    + unfold mbind, M_bind in Hcls. destruct (Engine.execute _ _ _) as [[[] | e] db3];
        simpl in Hcls; [| done]. injection Hcls as <-. apply Hshape.
    + injection Hcls as <-. apply Hshape.
  - unfold sql_create in Hcls. destruct (negb (has_sql cls)); [done |].
    destruct (sql cls) as [body | e]; [| done].
    destruct (negb _); simpl in Hcls.
    + unfold mbind, M_bind in Hcls. destruct (Engine.execute _ _ _) as [[[] | e] db3];
        simpl in Hcls; [| done]. injection Hcls as <-. apply Hshape.
    + injection Hcls as <-. apply Hshape.
Qed.

Lemma statements_have_two_elements_witness :
  let db := Scenario.database None in
  let drops :=
    [[PyStr ("DROP VIEW IF EXISTS " +:+ dquote +:+ "shop_c" +:+ dquote +:+ " ;"); PyParams None];
     [PyStr ("DROP VIEW IF EXISTS " +:+ dquote +:+ "shop_b" +:+ dquote +:+ " ;"); PyParams None];
     [PyStr ("DROP VIEW IF EXISTS " +:+ dquote +:+ "shop_a" +:+ dquote +:+ " ;"); PyParams None]] in
  (drop_all_statements Scenario.abc true "all" db = (Ok drops, db) ∨
   create_all_statements Scenario.abc true "all" db = (Ok drops, db)) ∧
  Forall (λ s, ∃ sql params,
            s = [PyStr sql; PyParams params] ∧ length s = 2 ∧
            is_empty_statement s = false ∧
            execute_statement s = Engine.execute sql params) drops.
Proof.
  intros db drops.
  assert (drop_all_statements Scenario.abc true "all" db = (Ok drops, db)) as Hd
    by (vm_compute; reflexivity).
  split; [left; exact Hd |].
  exact (statements_have_two_elements Scenario.abc "all" true db drops db (or_introl Hd)).
Defined.

(** * Further properties of the code *)

Section membership.
Context (dj : django).

Lemma models_of_names_elem flattened ms name m :
  models_of_names dj flattened = Ok ms → name ∈ flattened →
  model_of_name dj name = Ok (Some m) → m ∈ ms.
Proof.
  intros Hms (l1 & l2 & ->)%list_elem_of_split Hm.
  apply models_of_names_app in Hms as (ms1 & ms2 & _ & Hms2 & ->).
  apply (models_of_names_cons _ _ _ _ _ Hm) in Hms2 as (rest & _ & ->).
  apply elem_of_app. right. apply list_elem_of_here.
Qed.

Lemma models_of_names_found flattened : ∀ ms m,
  models_of_names dj flattened = Ok ms → m ∈ ms →
  ∃ name, name ∈ flattened ∧ model_of_name dj name = Ok (Some m).
Proof.
  induction flattened as [| name l IH]; intros ms m; simpl.
  - intros [= <-] Hin. by apply elem_of_nil in Hin.
  - destruct (model_of_name dj name) as [found |] eqn:Hname; [simpl | done].
    destruct (models_of_names dj l) as [rest |]; [simpl | done].
    intros [= <-] Hin.
    assert (found = Some m ∨ m ∈ rest) as [-> | Hrest].
    { destruct found; [apply elem_of_cons in Hin as [-> | ?] |]; eauto. }
    + exists name. split; [apply list_elem_of_here | done].
    + destruct (IH rest m eq_refl Hrest) as (name' & ? & ?). exists name'.
      split; [by apply list_elem_of_further | done].
Qed.

Lemma models_of_names_resolved flattened : ∀ ms name,
  models_of_names dj flattened = Ok ms → name ∈ flattened →
  ∃ found, model_of_name dj name = Ok found.
Proof.
  induction flattened as [| name' l IH]; intros ms name; simpl.
  - intros _ Hin. by apply elem_of_nil in Hin.
  - destruct (model_of_name dj name') as [found |] eqn:Hname; [simpl | done].
    destruct (models_of_names dj l) as [rest |] eqn:Hrest; [simpl | done].
    intros _ [-> | Hin]%elem_of_cons; [eauto |]. by eapply IH.
Qed.

(** The names that [toposort_flatten] returns for the graph of
    [sort_dependencies]: those of the classes in scope that declare a
    dependency, and those of the dependencies. *)
Lemma flattened_names apps g flattened name :
  dependency_graph dj apps = Ok g → Toposort.toposort_flatten g = Ok flattened →
  name ∈ flattened ↔
    ∃ c d, scheduled_class dj apps c ∧ declares dj c d ∧
      (name = name_of dj c ∨ name = name_of dj d).
Proof.
  intros Hg (_ & _ & Hmem)%toposort_flatten_sound. rewrite Hmem. split.
  - intros [[deps Hk]%elem_of_dom | (k & Hedge & _)].
    + destruct (set_choose_or_empty deps) as [[d Hd] | Hempty].
      * assert (edge g name d) as Hedge by (by exists deps).
        apply (dependency_graph_edges dj apps g Hg) in Hedge as (c & m & Hc & Hm & -> & _).
        exists c, m. eauto.
      * exfalso. apply leibniz_equiv in Hempty. subst deps.
        by apply (collect_dependencies_nonempty _ _ _ _ _ Hg (map_Forall_empty _) name ∅).
    + apply (dependency_graph_edges dj apps g Hg) in Hedge as (c & d & Hc & Hd & -> & ->).
      exists c, d. eauto.
  - intros (c & d & Hc & Hd & Hname).
    assert (edge g (name_of dj c) (name_of dj d)) as Hedge.
    { apply (dependency_graph_edges dj apps g Hg). by exists c, d. }
    destruct Hname as [-> | ->].
    + left. destruct Hedge as (deps & Hk & _). apply elem_of_dom. eauto.
    + destruct (decide (name_of dj d = name_of dj c)) as [Heq | Hne].
      * left. rewrite Heq. destruct Hedge as (deps & Hk & _). apply elem_of_dom. eauto.
      * right. by exists (name_of dj c).
Qed.
End membership.

Lemma sort_dependencies_members_iff dj apps ordered_models m :
  sort_dependencies dj apps = Ok ordered_models →
  m ∈ ordered_models ↔
    ∃ c d, scheduled_class dj apps c ∧ declares dj c d ∧
      (model_of_name dj (name_of dj c) = Ok (Some m) ∨
       model_of_name dj (name_of dj d) = Ok (Some m)).
Proof.
  unfold sort_dependencies.
  destruct (dependency_graph dj apps) as [g |] eqn:Hg; [simpl | done].
  destruct (Toposort.toposort_flatten g) as [flattened |] eqn:Hfl; [simpl | done].
  intros Hms. split.
  - intros (name & Hname & Hm)%(models_of_names_found dj flattened ordered_models); [| done].
    apply (flattened_names dj apps g flattened name Hg Hfl) in Hname
      as (c & d & Hc & Hd & [-> | ->]); exists c, d; eauto.
  - intros (c & d & Hc & Hd & Hm).
    assert (name_of dj c ∈ flattened ∧ name_of dj d ∈ flattened) as [Hcin Hdin].
    { split; apply (flattened_names dj apps g flattened _ Hg Hfl); exists c, d; eauto. }
    destruct Hm as [Hm | Hm].
    + exact (models_of_names_elem dj flattened _ _ m Hms Hcin Hm).
    + exact (models_of_names_elem dj flattened _ _ m Hms Hdin Hm).
Qed.

(** X1.  What [sort_dependencies] returns, when it returns: the models
    that the second loop finds under the name of a class in scope that
    declares a dependency, or under the name of such a dependency, and no
    others.  A class that declares nothing and that nothing in scope
    depends on is not listed. *)
Theorem sort_dependencies_lists dj apps ordered_models m :
  sort_dependencies dj apps = Ok ordered_models →
  m ∈ ordered_models ↔
    ∃ c d, scheduled_class dj apps c ∧ declares dj c d ∧
      (model_of_name dj (name_of dj c) = Ok (Some m) ∨
       model_of_name dj (name_of dj d) = Ok (Some m)).
Proof. apply sort_dependencies_members_iff. Qed.

Lemma sort_dependencies_lists_witness :
  sort_dependencies Cases.abc_alone "all" = Ok [Scenario.A; Scenario.B; Scenario.C] ∧
  (Cases.alone ∈ [Scenario.A; Scenario.B; Scenario.C] ↔
    ∃ c d, scheduled_class Cases.abc_alone "all" c ∧ declares Cases.abc_alone c d ∧
      (model_of_name Cases.abc_alone (name_of Cases.abc_alone c) = Ok (Some Cases.alone) ∨
       model_of_name Cases.abc_alone (name_of Cases.abc_alone d) = Ok (Some Cases.alone))).
Proof.
  assert (sort_dependencies Cases.abc_alone "all" = Ok [Scenario.A; Scenario.B; Scenario.C])
    as Hsort by (vm_compute; reflexivity).
  split; [exact Hsort |].
  exact (sort_dependencies_lists Cases.abc_alone "all" _ Cases.alone Hsort).
Defined.

Lemma model_of_name_has_sql dj name m :
  model_of_name dj name = Ok (Some m) → has_sql m = true.
Proof.
  unfold model_of_name.
  destruct (Str.last_item _) as [model |]; [simpl | done].
  destruct (_ || _); [done |].
  destruct (get_model dj _ model) as [model_object |]; [simpl | done].
  destruct (has_sql model_object) eqn:Hsql; [| done]. by intros [= <-].
Qed.

Lemma sort_dependencies_has_sql dj apps ordered_models m :
  sort_dependencies dj apps = Ok ordered_models → m ∈ ordered_models → has_sql m = true.
Proof.
  unfold sort_dependencies.
  destruct (dependency_graph dj apps) as [g |]; [simpl | done].
  destruct (Toposort.toposort_flatten g) as [flattened |]; [simpl | done].
  intros Hms (name & _ & Hm)%(models_of_names_found dj flattened ordered_models); [| done].
  by eapply model_of_name_has_sql.
Qed.



Section first_loop.
Context (dj : django).

Lemma get_model_raises app_name model_name e :
  get_model dj app_name model_name = Raise e → ∃ msg, e = LookupError msg.
Proof.
  unfold get_model. destruct (app_configs dj !! _) as [app |]; [| intros [= <-]; eauto].
  destruct (app !! _); [done | intros [= <-]; eauto].
Qed.

Lemma add_dependencies_raises class_string declared : ∀ deps e,
  add_dependencies dj class_string declared deps = Raise e →
  e = LookupError "Dependency of %s failed".
Proof.
  induction declared as [| dependency declared IH]; intros deps e; simpl; [done |].
  destruct (get_model dj dependency.1 dependency.2) as [m | e'] eqn:Hm; [apply IH |].
  apply get_model_raises in Hm as [msg ->]. by intros [= <-].
Qed.

Lemma add_dependencies_unresolved class_string declared dependency e : ∀ deps,
  dependency ∈ declared → get_model dj dependency.1 dependency.2 = Raise e →
  add_dependencies dj class_string declared deps =
    Raise (LookupError "Dependency of %s failed").
Proof.
  induction declared as [| dep declared IH]; intros deps Hin Hbad; [by apply elem_of_nil in Hin |].
  simpl. destruct (get_model dj dep.1 dep.2) as [m | e'] eqn:Hm.
  - apply elem_of_cons in Hin as [-> | Hin]; [congruence | by apply IH].
  - by apply get_model_raises in Hm as [msg ->].
Qed.

Lemma collect_dependencies_raises apps classes : ∀ deps e,
  collect_dependencies dj apps classes deps = Raise e →
  e = LookupError "Dependency of %s failed".
Proof.
  induction classes as [| c classes IH]; intros deps e; simpl; [done |].
  destruct (skipped_by_scope apps c); [apply IH |].
  destruct (abstract c); [apply IH |].
  destruct (add_dependencies dj _ _ deps) as [deps1 | e'] eqn:Hadd; simpl; [apply IH |].
  apply add_dependencies_raises in Hadd as ->. by intros [= <-].
Qed.

Lemma collect_dependencies_unresolved apps classes c dependency e : ∀ deps,
  c ∈ classes → skipped_by_scope apps c = false → abstract c = false →
  dependency ∈ dependencies c → get_model dj dependency.1 dependency.2 = Raise e →
  collect_dependencies dj apps classes deps =
    Raise (LookupError "Dependency of %s failed").
Proof.
  intros deps Hin Hs Ha Hd Hbad.
  destruct (collect_dependencies dj apps classes deps) as [g | e'] eqn:Hcol.
  - destruct (collect_dependencies_found dj apps classes deps g Hcol c dependency)
      as [m Hm]; [done.. |]. congruence.
  - by apply collect_dependencies_raises in Hcol as ->.
Qed.

End first_loop.

(** X3.  A dependency that is not registered, declared by a class in
    scope: [sort_dependencies] raises the [LookupError] of its first loop
    and returns no list. *)
Theorem unresolved_dependency_raises dj apps c dependency e :
  scheduled_class dj apps c → dependency ∈ dependencies c →
  get_model dj dependency.1 dependency.2 = Raise e →
  sort_dependencies dj apps = Raise (LookupError "Dependency of %s failed").
Proof.
  intros (Hin & Hs & Ha) Hd Hbad. unfold sort_dependencies, dependency_graph.
  by rewrite (collect_dependencies_unresolved dj apps _ c dependency e ∅ Hin Hs Ha Hd Hbad).
Qed.

Lemma unresolved_dependency_raises_witness :
  scheduled_class Cases.broken "shop" Cases.orphan ∧
  ("shop", "Missing") ∈ dependencies Cases.orphan ∧
  get_model Cases.broken "shop" "Missing" =
    Raise (LookupError "App shop Model Missing not found") ∧
  sort_dependencies Cases.broken "shop" = Raise (LookupError "Dependency of %s failed").
Proof.
  assert (scheduled_class Cases.broken "shop" Cases.orphan) as Hc.
  { split_and!; [| by vm_compute..].
    change (Cases.orphan ∈ [Scenario.MaterializedViewedModel_class; Scenario.A;
                            Cases.orphan; Scenario.report]).
    do 2 apply list_elem_of_further. apply list_elem_of_here. }
  assert (("shop", "Missing") ∈ dependencies Cases.orphan) as Hd by apply list_elem_of_here.
  assert (get_model Cases.broken "shop" "Missing" =
          Raise (LookupError "App shop Model Missing not found")) as Hbad
    by (vm_compute; reflexivity).
  split; [exact Hc |]. split; [exact Hd |]. split; [exact Hbad |].
  exact (unresolved_dependency_raises Cases.broken "shop" Cases.orphan ("shop", "Missing") _
           Hc Hd Hbad).
Defined.

(** The class with the unresolved dependency is outside the scope: nothing
    is raised. *)
Example unresolved_dependency_out_of_scope :
  sort_dependencies Cases.broken "ns2" = Ok [].
Proof. by vm_compute. Qed.



Section second_loop.
Context (dj : django).

(** X5.  The second loop reads a name back at its last underscore: for
    [app_model] where [model] has no underscore it looks up the model
    [model] in the app [app], whatever underscores the app label has. *)
Theorem model_of_name_last_underscore app model :
  has_char "_" model = false →
  model_of_name dj (app +:+ "_" +:+ model) =
    if bool_decide (app = "None") || bool_decide (model = "viewedmodel") then Ok None
    else
      model_object ← get_model dj app model;
      Ok (if has_sql model_object then Some model_object else None).
Proof.
  intros Hmodel.
  destruct (split_last_piece "_" model Hmodel app) as (pieces & Hsplit & Hne & Hjoin).
  unfold model_of_name.
  change (app +:+ "_" +:+ model) with (app +:+ String "_" model).
  rewrite Hsplit. unfold Str.last_item, Str.but_last.
  rewrite last_snoc, removelast_last. simpl. by rewrite Hjoin.
Qed.

(** A name without an underscore has an empty app. *)
Lemma model_of_name_no_underscore name :
  has_char "_" name = false →
  model_of_name dj name =
    if bool_decide (name = "viewedmodel") then Ok None
    else
      model_object ← get_model dj EmptyString name;
      Ok (if has_sql model_object then Some model_object else None).
Proof.
  intros Hname. unfold model_of_name. rewrite (split_without _ _ Hname). done.
Qed.
End second_loop.

Lemma model_of_name_last_underscore_witness :
  has_char "_" "view" = false ∧
  model_of_name Cases.underscored ("shop_my" +:+ "_" +:+ "view") =
    if bool_decide ("shop_my" = "None") || bool_decide ("view" = "viewedmodel") then Ok None
    else
      model_object ← get_model Cases.underscored "shop_my" "view";
      Ok (if has_sql model_object then Some model_object else None).
Proof.
  split; [reflexivity |].
  exact (model_of_name_last_underscore Cases.underscored "shop_my" "view" eq_refl).
Defined.

(** The view [shop.my_view]: its name is read as the model [view] of the
    app [shop_my], and [sort_dependencies] fails. *)
Example underscore_in_model_name :
  name_of Cases.underscored Cases.my_view = "shop_my_view" ∧
  sort_dependencies Cases.underscored "all" = Raise (LookupError "App shop_my not found").
Proof. split; by vm_compute. Qed.

(** X6.  [sort_dependencies] returns a list only if the second loop can
    resolve every name of the graph: the name of each class in scope that
    declares a dependency, and the name of each such dependency. *)
Theorem sort_dependencies_resolves_names dj apps ordered_models c d :
  sort_dependencies dj apps = Ok ordered_models →
  scheduled_class dj apps c → declares dj c d →
  (∃ found, model_of_name dj (name_of dj c) = Ok found) ∧
  (∃ found, model_of_name dj (name_of dj d) = Ok found).
Proof.
  unfold sort_dependencies.
  destruct (dependency_graph dj apps) as [g |] eqn:Hg; [simpl | done].
  destruct (Toposort.toposort_flatten g) as [flattened |] eqn:Hfl; [simpl | done].
  intros Hms Hc Hd.
  split; apply (models_of_names_resolved dj flattened ordered_models _ Hms);
    apply (flattened_names dj apps g flattened _ Hg Hfl); exists c, d; eauto.
Qed.

Lemma sort_dependencies_resolves_names_witness :
  sort_dependencies Scenario.abc "all" = Ok [Scenario.A; Scenario.B; Scenario.C] ∧
  scheduled_class Scenario.abc "all" Scenario.B ∧
  declares Scenario.abc Scenario.B Scenario.A ∧
  (∃ found, model_of_name Scenario.abc (name_of Scenario.abc Scenario.B) = Ok found) ∧
  (∃ found, model_of_name Scenario.abc (name_of Scenario.abc Scenario.A) = Ok found).
Proof.
  assert (sort_dependencies Scenario.abc "all" = Ok [Scenario.A; Scenario.B; Scenario.C])
    as Hsort by (vm_compute; reflexivity).
  assert (scheduled_class Scenario.abc "all" Scenario.B) as Hc.
  { split_and!; [| by vm_compute..].
    change (Scenario.B ∈ [Scenario.MaterializedViewedModel_class; Scenario.C; Scenario.A;
                          Scenario.B]).
    do 3 apply list_elem_of_further. apply list_elem_of_here. }
  assert (declares Scenario.abc Scenario.B Scenario.A) as Hd.
  { exists ("shop", "A"). split; [apply list_elem_of_here | by vm_compute]. }
  split; [exact Hsort |]. split; [exact Hc |]. split; [exact Hd |].
  exact (sort_dependencies_resolves_names Scenario.abc "all" _ Scenario.B Scenario.A
           Hsort Hc Hd).
Defined.

(** ** Running statements *)

Section running.
Implicit Types (db : DB) (sql : string) (cls : model).

Lemma drop_text_plain cls : plain (drop_text cls).
Proof. reflexivity. Qed.

Lemma create_text_plain cls : plain (create_text cls).
Proof. reflexivity. Qed.

Lemma refresh_text_plain cls : plain (refresh_text cls).
Proof. reflexivity. Qed.

Lemma vacuum_text_plain cls : plain (vacuum_text cls).
Proof. reflexivity. Qed.

Lemma ran_nil db : ran db [] = db.
Proof. destruct db. unfold ran. simpl. by rewrite app_nil_r. Qed.

Lemma ran_cons db s statements : ran (ran db [s]) statements = ran db (s :: statements).
Proof. unfold ran. simpl. by rewrite <- app_assoc. Qed.

Lemma execute_plain sql params db :
  plain sql →
  Engine.execute sql params db =
    if rejects db sql then (Raise ProgrammingError, db) else (Ok (), ran db [(sql, params)]).
Proof. intros Hplain. unfold Engine.execute. rewrite Hplain. done. Qed.

Lemma accepted_ran db s statements : accepted (ran db s) statements = accepted db statements.
Proof. induction statements as [| q statements IH]; simpl; [done |]. by rewrite IH. Qed.

(** A loop that runs one plain statement per item: it runs them in order
    and stops at the first one that the engine refuses. *)
Lemma for_each_execute {A B} (f : A → M B) (text : A → string * option (list string))
    (value : A → B) (l : list A) :
  (∀ x, x ∈ l → plain (text x).1) →
  (∀ x, x ∈ l → ∀ db,
     f x db = (_ ← Engine.execute (text x).1 (text x).2; mret (value x)) db) →
  ∀ db, for_each f l db =
    (if bool_decide (accepted db (text <$> l) = text <$> l) then Ok (value <$> l)
     else Raise ProgrammingError,
     ran db (accepted db (text <$> l))).
Proof.
  intros Hplain Hf. induction l as [| x l IH]; intros db.
  - simpl. by rewrite ran_nil.
  - cbn [for_each]. unfold mbind, M_bind. rewrite Hf by apply list_elem_of_here.
    unfold mbind, M_bind.
    rewrite (execute_plain _ _ _ (Hplain x (list_elem_of_here _ _))).
    cbn [fmap list_fmap accepted].
    destruct (rejects db (text x).1) eqn:Hrej.
    + rewrite ran_nil. by rewrite bool_decide_eq_false_2.
    + unfold mret at 1, M_ret at 1.
      rewrite IH by (intros y Hy; first [by apply Hplain, list_elem_of_further
                                       | by apply Hf, list_elem_of_further]).
      rewrite accepted_ran, ran_cons.
      assert (((text x).1, (text x).2) = text x) as -> by (by destruct (text x)).
      case_bool_decide as Hall.
      * rewrite Hall. by rewrite bool_decide_eq_true_2.
      * rewrite bool_decide_eq_false_2; [done |]. intros [= Heq]. by apply Hall.
Qed.
End running.

(** ** The plans *)

Lemma for_each_pure {A B} (f : A → M B) (g : A → B) (l : list A) db :
  (∀ x, x ∈ l → f x db = (Ok (g x), db)) → for_each f l db = (Ok (g <$> l), db).
Proof.
  induction l as [| x l IH]; intros Hf; simpl; [done |].
  unfold mbind, M_bind. rewrite (Hf x) by apply list_elem_of_here.
  rewrite IH; [done |]. intros y Hy. apply Hf. by apply list_elem_of_further.
Qed.

Lemma for_each_fmap {A B C} (f : B → M C) (g : A → B) (l : list A) :
  for_each f (g <$> l) = for_each (f ∘ g) l.
Proof.
  induction l as [| x l IH]; [done |].
  cbn [fmap list_fmap for_each]. change (list_fmap A B g l) with (g <$> l). by rewrite IH.
Qed.

Lemma sql_drop_render cls db :
  base cls ≠ BaseModel →
  ViewedModel_method (sql_drop (mkKwargs (Some false) (Some true))) cls db =
    (Ok (rendered (drop_of_class cls)), db).
Proof. intros Hbase. unfold ViewedModel_method. by rewrite decide_False. Qed.

Lemma sql_create_render cls db :
  base cls ≠ BaseModel → has_sql cls = true →
  ViewedModel_method (sql_create (mkKwargs (Some false) (Some true))) cls db =
    (Ok (rendered (create_of_class cls)), db).
Proof.
  intros Hbase Hsql. unfold ViewedModel_method. rewrite decide_False by done.
  unfold sql_create. rewrite Hsql. simpl. unfold sql.
  destruct (own_sql cls) as [body |] eqn:Hown.
  - unfold rendered, create_of_class, create_text. simpl. by rewrite Hown.
  - unfold has_sql in Hsql. rewrite Hown in Hsql.
    rewrite (bool_decide_eq_false_2 (is_Some None)) in Hsql by (by intros [? ?]).
    simpl in Hsql. unfold materialized. rewrite Hsql.
    unfold rendered, create_of_class, create_text. simpl. by rewrite Hown.
Qed.

Lemma plans_rendered dj apps entities db :
  sort_dependencies dj apps = Ok entities →
  (∀ m, m ∈ entities → base m ≠ BaseModel) →
  drop_all_statements dj true apps db =
    (Ok (rendered ∘ drop_of_class <$> reverse entities), db) ∧
  create_all_statements dj true apps db =
    (Ok (rendered ∘ create_of_class <$> entities), db).
Proof.
  intros Hsort Hviews.
  unfold drop_all_statements, create_all_statements, ordered_models, mbind, M_bind.
  rewrite Hsort. split; apply for_each_pure; intros m Hm.
  - apply sql_drop_render, Hviews. exact (proj1 (elem_of_reverse _ _) Hm).
  - apply sql_create_render; [by apply Hviews |].
    by apply (sort_dependencies_has_sql dj apps entities m Hsort Hm).
Qed.

(** X7.  The two plans as [recreate] asks for them, over the classes that
    [sort_dependencies] lists when all of them are views: one [DROP] per
    class in the reverse of that order, without [CASCADE], and one
    [CREATE] per class in that order, with the class's [sql] and [params].
    Rendering the plans runs nothing. *)
Theorem plans_render_the_order dj apps entities db :
  sort_dependencies dj apps = Ok entities →
  (∀ m, m ∈ entities → base m ≠ BaseModel) →
  drop_all_statements dj true apps db =
    (Ok (rendered ∘ drop_of_class <$> reverse entities), db) ∧
  create_all_statements dj true apps db =
    (Ok (rendered ∘ create_of_class <$> entities), db).
Proof. apply plans_rendered. Qed.

Lemma abc_views m : m ∈ [Scenario.A; Scenario.B; Scenario.C] → base m ≠ BaseModel.
Proof.
  intros Hin Hbase.
  apply elem_of_cons in Hin as [-> | Hin]; [discriminate Hbase |].
  apply elem_of_cons in Hin as [-> | Hin]; [discriminate Hbase |].
  apply elem_of_cons in Hin as [-> | Hin]; [discriminate Hbase |].
  by apply elem_of_nil in Hin.
Qed.

Lemma plans_render_the_order_witness :
  let db := Scenario.database None in
  let entities := [Scenario.A; Scenario.B; Scenario.C] in
  sort_dependencies Scenario.abc "all" = Ok entities ∧
  (∀ m, m ∈ entities → base m ≠ BaseModel) ∧
  drop_all_statements Scenario.abc true "all" db =
    (Ok (rendered ∘ drop_of_class <$> reverse entities), db) ∧
  create_all_statements Scenario.abc true "all" db =
    (Ok (rendered ∘ create_of_class <$> entities), db).
Proof.
  intros db entities.
  assert (sort_dependencies Scenario.abc "all" = Ok entities) as Hsort
    by (vm_compute; reflexivity).
  assert (∀ m, m ∈ entities → base m ≠ BaseModel) as Hviews by exact abc_views.
  split; [exact Hsort |]. split; [exact Hviews |].
  exact (plans_render_the_order Scenario.abc "all" entities db Hsort Hviews).
Defined.

Lemma sql_drop_execute cls db :
  base cls ≠ BaseModel →
  ViewedModel_method (sql_drop (mkKwargs (Some false) (Some false))) cls db =
    (_ ← Engine.execute (drop_of_class cls).1 (drop_of_class cls).2;
     mret (rendered (drop_of_class cls))) db.
Proof. intros Hbase. unfold ViewedModel_method. by rewrite decide_False. Qed.

Lemma sql_create_execute cls db :
  base cls ≠ BaseModel → has_sql cls = true →
  ViewedModel_method (sql_create (mkKwargs (Some false) (Some false))) cls db =
    (_ ← Engine.execute (create_of_class cls).1 (create_of_class cls).2;
     mret (rendered (create_of_class cls))) db.
Proof.
  intros Hbase Hsql. unfold ViewedModel_method. rewrite decide_False by done.
  unfold sql_create. rewrite Hsql. simpl. unfold sql.
  destruct (own_sql cls) as [body |] eqn:Hown.
  - unfold rendered, create_of_class, create_text. simpl. by rewrite Hown.
  - unfold has_sql in Hsql. rewrite Hown in Hsql.
    rewrite (bool_decide_eq_false_2 (is_Some None)) in Hsql by (by intros [? ?]).
    simpl in Hsql. unfold materialized. rewrite Hsql.
    unfold rendered, create_of_class, create_text. simpl. by rewrite Hown.
Qed.

(** X8.  The plans with [dryrun=False] run their statements themselves,
    one after the other, and stop at the first one that the engine
    refuses with [ProgrammingError]; the statements before it have run.
    When all are taken the plan returns the statements that it ran. *)
Theorem plans_run_when_asked dj apps entities db :
  sort_dependencies dj apps = Ok entities →
  (∀ m, m ∈ entities → base m ≠ BaseModel) →
  let drops := drop_of_class <$> reverse entities in
  let creates := create_of_class <$> entities in
  drop_all_statements dj false apps db =
    (if bool_decide (accepted db drops = drops) then Ok (rendered <$> drops)
     else Raise ProgrammingError,
     ran db (accepted db drops)) ∧
  create_all_statements dj false apps db =
    (if bool_decide (accepted db creates = creates) then Ok (rendered <$> creates)
     else Raise ProgrammingError,
     ran db (accepted db creates)).
Proof.
  intros Hsort Hviews drops creates.
  unfold drop_all_statements, create_all_statements, ordered_models.
  split; unfold mbind at 1, M_bind at 1; rewrite Hsort.
  - rewrite (for_each_execute _ drop_of_class (rendered ∘ drop_of_class) (reverse entities)).
    + unfold drops. by rewrite list_fmap_compose.
    + intros cls _. apply drop_text_plain.
    + intros cls Hin db'. apply sql_drop_execute, Hviews.
      exact (proj1 (elem_of_reverse _ _) Hin).
  - rewrite (for_each_execute _ create_of_class (rendered ∘ create_of_class) entities).
    + unfold creates. by rewrite list_fmap_compose.
    + intros cls _. apply create_text_plain.
    + intros cls Hin db'. apply sql_create_execute; [by apply Hviews |].
      by apply (sort_dependencies_has_sql dj apps entities cls Hsort Hin).
Qed.

Lemma plans_run_when_asked_witness :
  let db := Scenario.database None in
  let entities := [Scenario.A; Scenario.B; Scenario.C] in
  let drops := drop_of_class <$> reverse entities in
  let creates := create_of_class <$> entities in
  drop_all_statements Scenario.abc false "all" db = (Ok (rendered <$> drops), ran db drops) ∧
  create_all_statements Scenario.abc false "all" db =
    (Ok (rendered <$> creates), ran db creates).
Proof.
  intros db entities drops creates.
  assert (sort_dependencies Scenario.abc "all" = Ok entities) as Hsort
    by (vm_compute; reflexivity).
  exact (plans_run_when_asked Scenario.abc "all" entities db Hsort abc_views).
Defined.

(** X9.  [recreate] over the classes that [sort_dependencies] lists, all
    of them views: the engine is given the [DROP]s in reverse order and
    then the [CREATE]s in order.  When it takes them all they are what has
    run, in that order; when it refuses one, [recreate] raises
    [ProgrammingError] and the database is as before, the statements that
    had run rolled back. *)
Theorem recreate_all_or_nothing dj apps entities db :
  sort_dependencies dj apps = Ok entities →
  (∀ m, m ∈ entities → base m ≠ BaseModel) →
  let statements := (drop_of_class <$> reverse entities) ++ (create_of_class <$> entities) in
  recreate dj apps db =
    if bool_decide (accepted db statements = statements)
    then (Ok (), ran db statements)
    else (Raise ProgrammingError, db).
Proof.
  intros Hsort Hviews statements.
  destruct (plans_rendered dj apps entities db Hsort Hviews) as [Hdrop Hcreate].
  unfold recreate, atomic. unfold mbind at 1 2, M_bind at 1 2.
  rewrite Hdrop, Hcreate. unfold mbind at 1, M_bind at 1.
  rewrite !list_fmap_compose, <- fmap_app. fold statements.
  rewrite for_each_fmap.
  rewrite (for_each_execute (execute_statement ∘ rendered) id (λ _, ()) statements).
  - rewrite list_fmap_id. case_bool_decide as Hall; [| done].
    unfold mret, M_ret. by rewrite Hall.
  - intros [sql params]. unfold statements.
    intros [(cls & [= -> ->] & _)%list_elem_of_fmap | (cls & [= -> ->] & _)%list_elem_of_fmap]%elem_of_app;
      [apply drop_text_plain | apply create_text_plain].
  - intros [sql params] _ db'. unfold mbind, M_bind, mret, M_ret, compose, rendered. simpl.
    change (execute_statement [PyStr sql; PyParams params] db')
      with (Engine.execute sql params db').
    by destruct (Engine.execute sql params db') as [[[] | e] db''].
Qed.

Lemma recreate_all_or_nothing_witness :
  let db := Scenario.database None in
  let entities := [Scenario.A; Scenario.B; Scenario.C] in
  let statements := (drop_of_class <$> reverse entities) ++ (create_of_class <$> entities) in
  sort_dependencies Scenario.abc "all" = Ok entities ∧
  (∀ m, m ∈ entities → base m ≠ BaseModel) ∧
  recreate Scenario.abc "all" db =
    if bool_decide (accepted db statements = statements)
    then (Ok (), ran db statements)
    else (Raise ProgrammingError, db).
Proof.
  intros db entities statements.
  assert (sort_dependencies Scenario.abc "all" = Ok entities) as Hsort
    by (vm_compute; reflexivity).
  assert (∀ m, m ∈ entities → base m ≠ BaseModel) as Hviews by exact abc_views.
  split; [exact Hsort |]. split; [exact Hviews |].
  exact (recreate_all_or_nothing Scenario.abc "all" entities db Hsort Hviews).
Defined.

(** ** Refreshing and vacuuming *)

Section maintenance.
Context `{Json.Codec} (dj : django).
Implicit Types (kw : kwargs) (db : DB).

Lemma sql_vacuum_execute kw cls db :
  default false (dryrun kw) = false →
  sql_vacuum kw cls db =
    (_ ← Engine.execute (vacuum_of_class cls).1 (vacuum_of_class cls).2;
     mret (Some (rendered (vacuum_of_class cls)))) db.
Proof. intros Hdry. unfold sql_vacuum. by rewrite Hdry. Qed.

Lemma for_each_const {A B} (f : A → M B) (b : B) (l : list A) db :
  (∀ x, f x db = (Ok b, db)) → for_each f l db = (Ok (replicate (length l) b), db).
Proof.
  intros Hf. induction l as [| x l IH]; simpl; [done |].
  unfold mbind, M_bind. by rewrite Hf, IH.
Qed.
End maintenance.

(** X10.  [vacuum_mv] without [dryrun], over the materialized views that
    [sort_dependencies] lists, in that order: each [VACUUM ANALYZE] is run
    until the engine refuses one.  It is not wrapped in a transaction: when
    a statement is refused [vacuum_mv] raises [ProgrammingError] and the
    statements before it have run and stay run. *)
Theorem vacuum_mv_stops_at_refusal dj apps kw entities db :
  sort_dependencies dj apps = Ok entities →
  default false (dryrun kw) = false →
  let views := filter (λ m, materialized m = true) entities in
  let statements := vacuum_of_class <$> views in
  vacuum_mv dj apps kw db =
    (if bool_decide (accepted db statements = statements)
     then Ok (Some ∘ rendered ∘ vacuum_of_class <$> views)
     else Raise ProgrammingError,
     ran db (accepted db statements)).
Proof.
  intros Hsort Hdry views statements.
  unfold vacuum_mv, ordered_models. unfold mbind at 1, M_bind at 1. rewrite Hsort.
  fold views.
  rewrite (for_each_execute (sql_vacuum kw) vacuum_of_class
             (Some ∘ rendered ∘ vacuum_of_class) views).
  - done.
  - intros cls _. apply vacuum_text_plain.
  - intros cls _ db'. by apply sql_vacuum_execute.
Qed.

Lemma vacuum_mv_stops_at_refusal_witness :
  let entities := [Scenario.totals; Cases.daily] in
  let views := filter (λ m, materialized m = true) entities in
  let statements := vacuum_of_class <$> views in
  sort_dependencies Cases.warehouse "all" = Ok entities ∧
  default false (dryrun Scenario.no_kwargs) = false ∧
  vacuum_mv Cases.warehouse "all" Scenario.no_kwargs Cases.locked =
    (if bool_decide (accepted Cases.locked statements = statements)
     then Ok (Some ∘ rendered ∘ vacuum_of_class <$> views)
     else Raise ProgrammingError,
     ran Cases.locked (accepted Cases.locked statements)).
Proof.
  intros entities views statements.
  assert (sort_dependencies Cases.warehouse "all" = Ok entities) as Hsort
    by (vm_compute; reflexivity).
  split; [exact Hsort |]. split; [reflexivity |].
  exact (vacuum_mv_stops_at_refusal Cases.warehouse "all" Scenario.no_kwargs entities
           Cases.locked Hsort eq_refl).
Defined.

Example vacuum_mv_keeps_first :
  vacuum_mv Cases.warehouse "all" Scenario.no_kwargs Cases.locked =
    (Raise ProgrammingError, ran Cases.locked [("VACUUM ANALYZE shop_totals", None)]).
Proof. by vm_compute. Qed.

(** X11.  With [dryrun] set, [refresh_mv] and [vacuum_mv] run nothing and
    return one [None] for each materialized view that [sort_dependencies]
    lists: the statements that would run are not returned. *)
Theorem maintenance_dryrun_returns_no_statement `{Json.Codec} dj apps kw entities db :
  sort_dependencies dj apps = Ok entities →
  dryrun kw = Some true →
  let views := filter (λ m, materialized m = true) entities in
  refresh_mv dj apps kw db = (Ok (replicate (length views) None), db) ∧
  vacuum_mv dj apps kw db = (Ok (replicate (length views) None), db).
Proof.
  intros Hsort Hdry views.
  unfold refresh_mv, vacuum_mv, atomic, ordered_models.
  unfold mbind at 1 2, M_bind at 1 2. rewrite Hsort. fold views. split.
  - rewrite (for_each_const (sql_refresh kw) None views db); [done |].
    intros cls. by apply sql_refresh_dryrun.
  - apply for_each_const. intros cls. by apply sql_vacuum_dryrun.
Qed.

Lemma maintenance_dryrun_returns_no_statement_witness :
  let entities := [Scenario.totals; Cases.daily] in
  let views := filter (λ m, materialized m = true) entities in
  sort_dependencies Cases.warehouse "all" = Ok entities ∧
  dryrun Scenario.render_only = Some true ∧
  refresh_mv (H := JsonText.codec) Cases.warehouse "all" Scenario.render_only Cases.locked =
    (Ok (replicate (length views) None), Cases.locked) ∧
  vacuum_mv Cases.warehouse "all" Scenario.render_only Cases.locked =
    (Ok (replicate (length views) None), Cases.locked).
Proof.
  intros entities views.
  assert (sort_dependencies Cases.warehouse "all" = Ok entities) as Hsort
    by (vm_compute; reflexivity).
  split; [exact Hsort |]. split; [reflexivity |].
  exact (maintenance_dryrun_returns_no_statement (H := JsonText.codec) Cases.warehouse "all"
           Scenario.render_only entities Cases.locked Hsort eq_refl).
Defined.

(** ** The comment of a materialized view *)

Section comments.
Context `{Json.Codec}.
Implicit Types (cls : model) (kw : kwargs) (db : DB).

(** [set_comment] once the comment has been read as JSON. *)
Lemma set_comment_loaded cls db found v :
  relations db !! table_name cls = Some found →
  Json.loads (or_empty_object found) = Ok v →
  set_comment cls db =
    match Json.setitem v "last_updated" (Json.Str (now db)) with
    | Ok comment => _set_comment cls (Json.dumps comment) db
    | Raise e => (Raise e, db)
    end.
Proof.
  intros Hrel Hv. unfold set_comment, get_comment, mbind, M_bind. rewrite Hrel, Hv.
  unfold time_from_db. by destruct (Json.setitem _ _ _).
Qed.

Lemma sql_refresh_runs kw cls db :
  update_mv cls db = true → default false (dryrun kw) = false →
  rejects db (refresh_text cls) = false →
  sql_refresh kw cls db =
    (_ ← set_comment cls; mret (Some [PyStr (refresh_text cls); PyParams None]))
      (ran db [(refresh_text cls, None)]).
Proof.
  intros Hgo Hdry Hrej. unfold sql_refresh. unfold mbind at 1, M_bind at 1.
  rewrite Hgo, Hdry. simpl. unfold mbind at 1, M_bind at 1.
  change ("REFRESH MATERIALIZED VIEW " +:+ _ +:+ " " +:+ table_name cls)
    with (refresh_text cls).
  rewrite (execute_plain _ _ _ (refresh_text_plain cls)), Hrej. done.
Qed.

(** X12.  A comment that is JSON but not an object (a number, a string, a
    list, [null]) is not replaced: [set_comment] raises [TypeError] at
    [comment['last_updated'] = ...] and writes nothing.  [sql_refresh]
    has run its [REFRESH] by then, and its [except ProgrammingError] does
    not catch the error. *)
Theorem set_comment_needs_object cls kw db found v :
  relations db !! table_name cls = Some found →
  Json.loads (or_empty_object found) = Ok v →
  (∀ members, v ≠ Json.Object members) →
  set_comment cls db = (Raise TypeError, db) ∧
  (update_mv cls db = true → default false (dryrun kw) = false →
   rejects db (refresh_text cls) = false →
   sql_refresh kw cls db = (Raise TypeError, ran db [(refresh_text cls, None)])).
Proof.
  intros Hrel Hv Hobj.
  assert (∀ db', relations db' = relations db → set_comment cls db' = (Raise TypeError, db'))
    as Hset.
  { intros db' Hsame. rewrite (set_comment_loaded cls db' found v) by (by rewrite ?Hsame).
    destruct v; try done. by destruct (Hobj members). }
  split; [by apply Hset |]. intros Hgo Hdry Hrej.
  rewrite (sql_refresh_runs kw cls db Hgo Hdry Hrej). unfold mbind, M_bind.
  by rewrite Hset.
Qed.

(** X13.  A refresh that goes through.  The relation exists and its
    comment, or [{}] when it has none, is a JSON object; the object with
    [last_updated] set serializes to a text without a quote; the engine
    takes the two statements.  Then [sql_refresh] runs the [REFRESH], then
    the [COMMENT], returns the [REFRESH] statement, and the comment of the
    relation is that serialization: [last_updated] is the time of the
    database and the other keys are as they were. *)
Theorem sql_refresh_stamps_comment cls kw db found members :
  let merged := Json.Object (Json.dict_set "last_updated" (Json.Str (now db)) members) in
  update_mv cls db = true → default false (dryrun kw) = false →
  relations db !! table_name cls = Some found →
  Json.loads (or_empty_object found) = Ok (Json.Object members) →
  has_char "'" (Json.dumps merged) = false → Json.dumps merged ≠ EmptyString →
  has_char " " (table_name cls) = false →
  rejects db (refresh_text cls) = false →
  rejects db (comment_text cls (Json.dumps merged)) = false →
  sql_refresh kw cls db =
    (Ok (Some [PyStr (refresh_text cls); PyParams None]),
     mkDB (<[table_name cls := Some (Json.dumps merged)]> (relations db))
          (executed db ++ [(refresh_text cls, None);
                           (comment_text cls (Json.dumps merged), None)])
          (now db) (rejects db)) ∧
  Json.dict_get "last_updated" (Json.dict_set "last_updated" (Json.Str (now db)) members) =
    Some (Json.Str (now db)) ∧
  ∀ key, key ≠ "last_updated" →
    Json.dict_get key (Json.dict_set "last_updated" (Json.Str (now db)) members) =
      Json.dict_get key members.
Proof.
  intros merged Hgo Hdry Hrel Hobj Hquote Hdumps Hname Hrej1 Hrej2.
  split; [| split; [apply dict_get_set | intros key Hkey; by apply dict_get_set_other]].
  rewrite (sql_refresh_runs kw cls db Hgo Hdry Hrej1). unfold mbind, M_bind.
  rewrite (set_comment_loaded cls _ found (Json.Object members)) by done.
  simpl. fold merged.
  rewrite (_set_comment_plain cls (Json.dumps merged) _ found Hname Hquote) by done.
  simpl. rewrite decide_False by done. unfold mret, M_ret. by rewrite <- app_assoc.
Qed.
End comments.

Lemma set_comment_needs_object_witness :
  let db := Scenario.database (Some "12") in
  relations db !! table_name Scenario.totals = Some (Some "12") ∧
  Json.loads (Codec := JsonText.codec) (or_empty_object (Some "12")) = Ok (Json.Int 12) ∧
  (∀ members, Json.Int 12 ≠ Json.Object members) ∧
  set_comment (H := JsonText.codec) Scenario.totals db = (Raise TypeError, db) ∧
  (update_mv Scenario.totals db = true → default false (dryrun Scenario.no_kwargs) = false →
   rejects db (refresh_text Scenario.totals) = false →
   sql_refresh (H := JsonText.codec) Scenario.no_kwargs Scenario.totals db =
     (Raise TypeError, ran db [(refresh_text Scenario.totals, None)])).
Proof.
  intros db.
  assert (relations db !! table_name Scenario.totals = Some (Some "12")) as Hrel
    by (vm_compute; reflexivity).
  assert (Json.loads (Codec := JsonText.codec) (or_empty_object (Some "12")) = Ok (Json.Int 12))
    as Hv by (vm_compute; reflexivity).
  assert (∀ members, Json.Int 12 ≠ Json.Object members) as Hobj by (intros members; discriminate).
  split; [exact Hrel |]. split; [exact Hv |]. split; [exact Hobj |].
  exact (set_comment_needs_object (H := JsonText.codec) Scenario.totals Scenario.no_kwargs db
           (Some "12") (Json.Int 12) Hrel Hv Hobj).
Defined.

Lemma sql_refresh_stamps_comment_witness :
  let db := Scenario.database None in
  let cls := Scenario.totals in
  let stamp := "{" +:+ dquote +:+ "last_updated" +:+ dquote +:+ ": " +:+ dquote
               +:+ "2024-01-01 00:00:00+00" +:+ dquote +:+ "}" in
  sql_refresh (H := JsonText.codec) Scenario.no_kwargs cls db =
    (Ok (Some [PyStr "REFRESH MATERIALIZED VIEW CONCURRENTLY shop_totals"; PyParams None]),
     mkDB (<["shop_totals" := Some stamp]> (relations db))
          [("REFRESH MATERIALIZED VIEW CONCURRENTLY shop_totals", None);
           ("COMMENT ON MATERIALIZED VIEW shop_totals IS '" +:+ stamp +:+ "'", None)]
          (now db) (rejects db)).
Proof.
  intros db cls stamp.
  assert (Json.dumps (Codec := JsonText.codec)
            (Json.Object (Json.dict_set "last_updated" (Json.Str (now db)) [])) ≠ EmptyString)
    as Hdumps by (vm_compute; discriminate).
  exact (proj1 (sql_refresh_stamps_comment (H := JsonText.codec) cls Scenario.no_kwargs db
                  None [] eq_refl eq_refl eq_refl eq_refl eq_refl Hdumps eq_refl eq_refl
                  eq_refl)).
Defined.

(** ** The lookup table of the dependencies *)

Section lookup_table.
Context (dj : django).
Implicit Types (dep : string * string) (d : gmap string string).

Lemma dependency_lookup_from_entries dependencies : ∀ d0 d,
  dependency_lookup_from dj dependencies d0 = Ok d →
  ∀ key v, d !! key = Some v ↔
    (∃ m, last_with_key dj dependencies key m ∧ v = quoted (table_name m)) ∨
    (d0 !! key = Some v ∧
     ∀ dep, dep ∈ dependencies → default_table_name dj dep.1 dep.2 ≠ key).
Proof.
  induction dependencies as [| dep0 l IH]; intros d0 d; simpl.
  - intros [= <-] key v. split.
    + intros Hd. right. split; [done |]. intros dep Hin. by apply elem_of_nil in Hin.
    + intros [(m & (l1 & dep & l2 & Hl & _) & _) | [Hd _]]; [| done].
      by destruct l1.
  - unfold table_name_get_model.
    destruct (get_model dj dep0.1 dep0.2) as [m0 |] eqn:Hm0; [simpl | done].
    intros Hrec key v. rewrite (IH _ _ Hrec key v). split.
    + intros [(m & (l1 & dep & l2 & -> & Hkey & Hlater & Hm) & ->) | [Hd Hnone]].
      * left. exists m. split; [| done]. by exists (dep0 :: l1), dep, l2.
      * destruct (decide (default_table_name dj dep0.1 dep0.2 = key)) as [Heq | Hne].
        -- rewrite Heq, lookup_insert_eq in Hd. injection Hd as <-.
           left. exists m0. split; [| done]. by exists [], dep0, l.
        -- rewrite lookup_insert_ne in Hd by done. right. split; [done |].
           intros dep [-> | Hin]%elem_of_cons; [done | by apply Hnone].
    + intros [(m & (l1 & dep & l2 & Hl & Hkey & Hlater & Hm) & ->) | [Hd Hnone]].
      * destruct l1 as [| x l1]; simpl in Hl; injection Hl as -> ->.
        -- right. split.
           ++ rewrite <- Hkey, lookup_insert_eq. rewrite Hm0 in Hm. by injection Hm as ->.
           ++ done.
        -- left. exists m. split; [| done]. by exists l1, dep, l2.
      * right. split.
        -- rewrite lookup_insert_ne; [done |]. apply Hnone, list_elem_of_here.
        -- intros dep Hin. by apply Hnone, list_elem_of_further.
Qed.

Lemma dependency_lookup_from_raises dependencies : ∀ d0 e,
  dependency_lookup_from dj dependencies d0 = Raise e ↔
    ∃ l1 dep l2, dependencies = l1 ++ dep :: l2 ∧
      (∀ earlier, earlier ∈ l1 → ∃ m, get_model dj earlier.1 earlier.2 = Ok m) ∧
      get_model dj dep.1 dep.2 = Raise e.
Proof.
  induction dependencies as [| dep0 l IH]; intros d0 e; simpl.
  - split; [done |]. intros (l1 & dep & l2 & Hl & _). by destruct l1.
  - unfold table_name_get_model.
    destruct (get_model dj dep0.1 dep0.2) as [m0 | e0] eqn:Hm0; simpl.
    + rewrite IH. split.
      * intros (l1 & dep & l2 & -> & Hearlier & Hdep). exists (dep0 :: l1), dep, l2.
        split_and!; [done | | done].
        intros earlier [-> | Hin]%elem_of_cons; [by exists m0 | by apply Hearlier].
      * intros (l1 & dep & l2 & Hl & Hearlier & Hdep).
        destruct l1 as [| x l1]; simpl in Hl; injection Hl as -> ->.
        -- by rewrite Hm0 in Hdep.
        -- exists l1, dep, l2. split_and!; [done | | done].
           intros earlier Hin. by apply Hearlier, list_elem_of_further.
    + split.
      * intros [= ->]. exists [], dep0, l. split_and!; [done | | done].
        intros earlier Hin. by apply elem_of_nil in Hin.
      * intros (l1 & dep & l2 & Hl & Hearlier & Hdep).
        destruct l1 as [| x l1]; simpl in Hl; injection Hl as -> ->.
        -- rewrite Hm0 in Hdep. by injection Hdep as ->.
        -- destruct (Hearlier x (list_elem_of_here _ _)) as [m Hm]. by rewrite Hm0 in Hm.
Qed.
End lookup_table.

(** X14.  The table that [dependency_lookup] builds, when every dependency
    is registered: under the default table name of a dependency it holds
    the actual table name of the model, in double quotes; when several
    dependencies share a default name the last one counts; and it holds
    nothing else. *)
Theorem dependency_lookup_entries dj dependencies d :
  dependency_lookup dj dependencies = Ok d →
  ∀ key v, d !! key = Some v ↔
    ∃ m, last_with_key dj dependencies key m ∧ v = quoted (table_name m).
Proof.
  intros Hd key v. unfold dependency_lookup in Hd.
  rewrite (dependency_lookup_from_entries dj dependencies ∅ d Hd key v).
  split; [| by left]. intros [? | [Hempty _]]; [done |]. by rewrite lookup_empty in Hempty.
Qed.

Lemma dependency_lookup_entries_witness :
  let dependencies := [("shop", "Ledger"); ("shop", "A"); ("Shop", "ledger")] in
  let d : gmap string string :=
    {[ "shop_ledger" := quoted "legacy_ledger_2009"; "shop_a" := quoted "shop_a" ]} in
  dependency_lookup Cases.bookkeeping dependencies = Ok d ∧
  ∀ key v, d !! key = Some v ↔
    ∃ m, last_with_key Cases.bookkeeping dependencies key m ∧ v = quoted (table_name m).
Proof.
  intros dependencies d.
  assert (dependency_lookup Cases.bookkeeping dependencies = Ok d) as Hd
    by (vm_compute; reflexivity).
  split; [exact Hd |].
  exact (dependency_lookup_entries Cases.bookkeeping dependencies d Hd).
Defined.

(** X15.  [dependency_lookup] fails exactly when a dependency is not
    registered: it raises the [LookupError] that [get_model] raises for
    the first such dependency. *)
Theorem dependency_lookup_raises dj dependencies e :
  dependency_lookup dj dependencies = Raise e ↔
    ∃ l1 dep l2, dependencies = l1 ++ dep :: l2 ∧
      (∀ earlier, earlier ∈ l1 → ∃ m, get_model dj earlier.1 earlier.2 = Ok m) ∧
      get_model dj dep.1 dep.2 = Raise e.
Proof. apply dependency_lookup_from_raises. Qed.

Example dependency_lookup_missing :
  dependency_lookup Cases.bookkeeping [("shop", "A"); ("shop", "Missing"); ("crm", "X")] =
    Raise (LookupError "App shop Model Missing not found").
Proof. by vm_compute. Qed.

(** ** Default table names *)

Section name_facts.
Implicit Types (s a b : string) (n : nat).



End name_facts.



(** ** When the order cannot be computed *)

(** X17.  When [sort_dependencies] raises (a dependency that is not
    registered, a cycle, a name that the second loop cannot resolve), the
    plans, [recreate], [refresh_mv] and [vacuum_mv] raise the same
    exception and have run nothing. *)
Theorem no_order_no_statement `{Json.Codec} dj apps e :
  sort_dependencies dj apps = Raise e →
  ∀ dryrun kw db,
    drop_all_statements dj dryrun apps db = (Raise e, db) ∧
    create_all_statements dj dryrun apps db = (Raise e, db) ∧
    recreate dj apps db = (Raise e, db) ∧
    refresh_mv dj apps kw db = (Raise e, db) ∧
    vacuum_mv dj apps kw db = (Raise e, db).
Proof.
  intros Hsort dryrun kw db.
  unfold recreate, refresh_mv, vacuum_mv, atomic, drop_all_statements,
    create_all_statements, ordered_models, mbind, M_bind.
  by rewrite Hsort.
Qed.

Lemma no_order_no_statement_witness :
  let db := Scenario.database None in
  let e := CircularDependencyError Scenario.xy_graph in
  sort_dependencies Scenario.xy "all" = Raise e ∧
  drop_all_statements Scenario.xy true "all" db = (Raise e, db) ∧
  create_all_statements Scenario.xy true "all" db = (Raise e, db) ∧
  recreate Scenario.xy "all" db = (Raise e, db) ∧
  refresh_mv (H := JsonText.codec) Scenario.xy "all" Scenario.no_kwargs db = (Raise e, db) ∧
  vacuum_mv Scenario.xy "all" Scenario.no_kwargs db = (Raise e, db).
Proof.
  intros db e.
  assert (sort_dependencies Scenario.xy "all" = Raise e) as Hsort
    by (vm_compute; reflexivity).
  split; [exact Hsort |].
  exact (no_order_no_statement (H := JsonText.codec) Scenario.xy "all" e Hsort true
           Scenario.no_kwargs db).
Defined.

(** ** The order in which the classes are defined *)

Section class_order.
Context (dj : django).

Lemma add_dependencies_total class_string declared : ∀ deps,
  (∀ dependency, dependency ∈ declared → ∃ m, get_model dj dependency.1 dependency.2 = Ok m) →
  ∃ deps', add_dependencies dj class_string declared deps = Ok deps'.
Proof.
  induction declared as [| dep declared IH]; intros deps Hall; simpl; [by eexists |].
  destruct (Hall dep (list_elem_of_here _ _)) as [m ->].
  apply IH. intros dependency Hin. by apply Hall, list_elem_of_further.
Qed.

Lemma collect_dependencies_total apps classes : ∀ deps,
  (∀ c dependency, c ∈ classes → skipped_by_scope apps c = false → abstract c = false →
     dependency ∈ dependencies c → ∃ m, get_model dj dependency.1 dependency.2 = Ok m) →
  ∃ deps', collect_dependencies dj apps classes deps = Ok deps'.
Proof.
  induction classes as [| c classes IH]; intros deps Hall; simpl; [by eexists |].
  assert (∀ deps, ∃ deps', collect_dependencies dj apps classes deps = Ok deps') as Hrec.
  { intros deps0. apply IH. intros c' dep Hin. apply Hall. by apply list_elem_of_further. }
  destruct (skipped_by_scope apps c) eqn:Hs; [apply Hrec |].
  destruct (abstract c) eqn:Ha; [apply Hrec |].
  destruct (add_dependencies_total (model_default_table_name dj c) (dependencies c) deps)
    as [deps1 ->]; [| simpl; apply Hrec].
  intros dep Hin. by apply (Hall c dep (list_elem_of_here _ _)).
Qed.

(** Two graphs without empty entries that have the same edges. *)
Lemma graph_ext (g g' : graph) :
  map_Forall (λ _ v, v ≠ (∅ : gset string)) g →
  map_Forall (λ _ v, v ≠ (∅ : gset string)) g' →
  (∀ k d, edge g k d ↔ edge g' k d) → g = g'.
Proof.
  intros Hg Hg' Hedges.
  assert (∀ (g1 g2 : graph) k deps, map_Forall (λ _ v, v ≠ (∅ : gset string)) g1 →
            (∀ k d, edge g1 k d → edge g2 k d) → g1 !! k = Some deps →
            ∃ deps', g2 !! k = Some deps' ∧ deps ⊆ deps') as Hsub.
  { intros g1 g2 k deps Hne H12 Hk.
    destruct (set_choose_or_empty deps) as [[d Hd] | Hempty].
    - destruct (H12 k d) as (deps' & Hk' & _); [by exists deps |].
      exists deps'. split; [done |]. intros x Hx.
      destruct (H12 k x) as (deps'' & Hk'' & Hx'); [by exists deps |]. congruence.
    - apply leibniz_equiv in Hempty. subst deps. by destruct (Hne k ∅ Hk). }
  apply map_eq. intros k.
  destruct (g !! k) as [deps |] eqn:Hk, (g' !! k) as [deps' |] eqn:Hk'; [| | | done].
  - destruct (Hsub g g' k deps Hg (λ k d, proj1 (Hedges k d)) Hk) as (x & Hx & H1).
    destruct (Hsub g' g k deps' Hg' (λ k d, proj2 (Hedges k d)) Hk') as (y & Hy & H2).
    f_equal. apply leibniz_equiv. set_solver.
  - destruct (Hsub g g' k deps Hg (λ k d, proj1 (Hedges k d)) Hk) as (x & Hx & _).
    congruence.
  - destruct (Hsub g' g k deps' Hg' (λ k d, proj2 (Hedges k d)) Hk') as (y & Hy & _).
    congruence.
Qed.

(** The first loop over two lists that hold the same classes. *)
Lemma collect_dependencies_members apps classes classes' g :
  (∀ c, c ∈ classes' ↔ c ∈ classes) →
  collect_dependencies dj apps classes ∅ = Ok g →
  collect_dependencies dj apps classes' ∅ = Ok g.
Proof.
  intros Hsame Hg.
  destruct (collect_dependencies_total apps classes' ∅) as [g' Hg'].
  { intros c dep Hin. apply (collect_dependencies_found dj apps classes ∅ g Hg).
    by apply Hsame. }
  rewrite Hg'. f_equal. apply graph_ext.
  - by apply (collect_dependencies_nonempty dj apps classes' ∅ g' Hg'), map_Forall_empty.
  - by apply (collect_dependencies_nonempty dj apps classes ∅ g Hg), map_Forall_empty.
  - intros k d.
    rewrite (collect_dependencies_edges dj apps classes' ∅ g' Hg' k d).
    rewrite (collect_dependencies_edges dj apps classes ∅ g Hg k d).
    split; (intros [? | (c & m & Hin & Hrest)]; [by left | right]); exists c, m;
      (split; [by apply Hsame | done]).
Qed.
End class_order.

(** What [sort_dependencies] reads of the project beside the classes. *)
Section same_registry.
Context (dj dj' : django).
Hypothesis (Hregistry : app_configs dj' = app_configs dj).
Hypothesis (Hlength : max_name_length dj' = max_name_length dj).
Hypothesis (Hdigest : names_digest dj' = names_digest dj).

Lemma get_model_registry app_name model_name :
  get_model dj' app_name model_name = get_model dj app_name model_name.
Proof. unfold get_model. by rewrite Hregistry. Qed.

Lemma model_default_table_name_registry m :
  model_default_table_name dj' m = model_default_table_name dj m.
Proof.
  unfold model_default_table_name, default_table_name, truncate_name.
  by rewrite Hlength, Hdigest.
Qed.

Lemma add_dependencies_registry class_string declared : ∀ deps,
  add_dependencies dj' class_string declared deps =
    add_dependencies dj class_string declared deps.
Proof.
  induction declared as [| dep declared IH]; intros deps; simpl; [done |].
  rewrite get_model_registry. destruct (get_model dj dep.1 dep.2) as [m | e]; [| done].
  by rewrite model_default_table_name_registry, IH.
Qed.

Lemma collect_dependencies_registry apps classes : ∀ deps,
  collect_dependencies dj' apps classes deps = collect_dependencies dj apps classes deps.
Proof.
  induction classes as [| c classes IH]; intros deps; simpl; [done |].
  rewrite !IH, model_default_table_name_registry, add_dependencies_registry.
  destruct (skipped_by_scope apps c), (abstract c); try done.
  destruct (add_dependencies dj _ _ deps) as [deps1 |]; simpl; [apply IH | done].
Qed.

Lemma models_of_names_registry flattened :
  models_of_names dj' flattened = models_of_names dj flattened.
Proof.
  induction flattened as [| name l IH]; simpl; [done |].
  rewrite IH. unfold model_of_name.
  destruct (Str.last_item _) as [model |]; [simpl | done].
  by rewrite get_model_registry.
Qed.
End same_registry.

(** X18.  The list that [sort_dependencies] returns does not depend on the
    order in which [get_subclasses] meets the classes: two projects with
    the same registry and the same classes below [ViewedModel], in whatever
    order, get the same list. *)
Theorem sort_dependencies_ignores_class_order dj dj' apps ordered_models :
  app_configs dj' = app_configs dj → max_name_length dj' = max_name_length dj →
  names_digest dj' = names_digest dj →
  (∀ c, c ∈ get_subclasses (ViewedModel dj') ↔ c ∈ get_subclasses (ViewedModel dj)) →
  sort_dependencies dj apps = Ok ordered_models →
  sort_dependencies dj' apps = Ok ordered_models.
Proof.
  intros Hregistry Hlength Hdigest Hsame. unfold sort_dependencies, dependency_graph.
  destruct (collect_dependencies dj apps (get_subclasses (ViewedModel dj)) ∅) as [g |] eqn:Hg;
    [simpl | done].
  apply (collect_dependencies_members dj apps _ (get_subclasses (ViewedModel dj')) g Hsame)
    in Hg.
  rewrite (collect_dependencies_registry dj dj' Hregistry Hlength Hdigest), Hg. simpl.
  destruct (Toposort.toposort_flatten g) as [flattened |]; [simpl | done].
  by rewrite (models_of_names_registry dj dj' Hregistry).
Qed.

Lemma sort_dependencies_ignores_class_order_witness :
  sort_dependencies Scenario.abc "all" = Ok [Scenario.A; Scenario.B; Scenario.C] ∧
  sort_dependencies Cases.bca "all" = Ok [Scenario.A; Scenario.B; Scenario.C].
Proof.
  assert (sort_dependencies Scenario.abc "all" = Ok [Scenario.A; Scenario.B; Scenario.C])
    as Hsort by (vm_compute; reflexivity).
  assert (app_configs Cases.bca = app_configs Scenario.abc) as Hregistry
    by (vm_compute; reflexivity).
  assert (∀ c, c ∈ get_subclasses (ViewedModel Cases.bca) ↔
               c ∈ get_subclasses (ViewedModel Scenario.abc)) as Hsame.
  { intros c.
    change (c ∈ [Scenario.MaterializedViewedModel_class; Scenario.B; Scenario.C; Scenario.A] ↔
            c ∈ [Scenario.MaterializedViewedModel_class; Scenario.C; Scenario.A; Scenario.B]).
    rewrite !elem_of_cons, !elem_of_nil. tauto. }
  split; [exact Hsort |].
  exact (sort_dependencies_ignores_class_order Scenario.abc Cases.bca "all" _
           Hregistry eq_refl eq_refl Hsame Hsort).
Defined.

(** ** Which classes are listed *)

(** X19.  A class in scope that declares a dependency, and that
    dependency, are in the list that [sort_dependencies] returns exactly
    when they have an [sql]; this for a class whose default table name is
    not truncated, whose model name has no underscore and is not
    [viewedmodel], and that is registered under its label and name. *)
Theorem well_named_model_is_listed dj apps ordered_models c d m app :
  sort_dependencies dj apps = Ok ordered_models →
  scheduled_class dj apps c → declares dj c d → m = c ∨ m = d →
  (String.length (app_label m +:+ "_" +:+ model_name m) ≤ max_name_length dj)%nat →
  has_char "_" (Str.lower (model_name m)) = false →
  Str.lower (model_name m) ≠ "viewedmodel" →
  app_configs dj !! Str.lower (app_label m) = Some app →
  app !! Str.lower (model_name m) = Some m →
  m ∈ ordered_models ↔ has_sql m = true.
Proof.
  intros Hsort Hc Hd Hm Hlen Hus Hvm Happ Hreg. split.
  - intros Hin. exact (sort_dependencies_has_sql dj apps ordered_models m Hsort Hin).
  - intros Hsql. apply (sort_dependencies_members_iff dj apps ordered_models m Hsort).
    exists c, d. split_and!; [done | done |].
    pose proof (model_of_name_own dj m app Hlen Hus Hvm Happ Hreg) as Hown.
    rewrite Hsql in Hown. destruct Hm as [-> | ->]; eauto.
Qed.

Lemma well_named_model_is_listed_witness :
  Scenario.A ∈ [Scenario.A; Scenario.B; Scenario.C] ↔ has_sql Scenario.A = true.
Proof.
  assert (sort_dependencies Scenario.abc "all" = Ok [Scenario.A; Scenario.B; Scenario.C])
    as Hsort by (vm_compute; reflexivity).
  assert (scheduled_class Scenario.abc "all" Scenario.B) as Hc.
  { split_and!; [| by vm_compute..].
    change (Scenario.B ∈ [Scenario.MaterializedViewedModel_class; Scenario.C; Scenario.A;
                          Scenario.B]).
    do 3 apply list_elem_of_further. apply list_elem_of_here. }
  assert (declares Scenario.abc Scenario.B Scenario.A) as Hd.
  { exists ("shop", "A"). split; [apply list_elem_of_here | by vm_compute]. }
  assert (String.length (app_label Scenario.A +:+ "_" +:+ model_name Scenario.A)
          ≤ max_name_length Scenario.abc)%nat as Hlen by (vm_compute; lia).
  assert (Str.lower (model_name Scenario.A) ≠ "viewedmodel") as Hvm
    by (intros Heq; vm_compute in Heq; discriminate Heq).
  pose (app := default ∅ (app_configs Scenario.abc !! "shop")).
  assert (app_configs Scenario.abc !! Str.lower (app_label Scenario.A) = Some app) as Happ
    by (vm_compute; reflexivity).
  assert (app !! Str.lower (model_name Scenario.A) = Some Scenario.A) as Hreg
    by (vm_compute; reflexivity).
  exact (well_named_model_is_listed Scenario.abc "all" _ Scenario.B Scenario.A Scenario.A app
           Hsort Hc Hd (or_intror eq_refl) Hlen eq_refl Hvm Happ Hreg).
Defined.
